(** * AiPhotos: blur analysis of the images of a directory tree

    A shallow embedding of [src/blurred.py] and the properties of its
    directory walk, of the blur test, of the per-directory report and of
    its worker pool.

    Conventions of the embedding.
    - Python [str] is [string]; a Python [float] is an IEEE 754 binary64
      value, [spec_float], compared with [SFltb] (Python's [<]).
    - [os.path] is [posixpath]: the separator is [/].
    - The imaging library (cv2), the two float printers of Python, the
      paths that can be opened for writing and the line waiting on
      standard input are parameters of the development: the script only
      calls them. A call of cv2 is taken to return (the worker pool is
      also modelled with calls that never do) and the writes to a file
      that [open] accepted are taken to succeed.
    - Effects (the files written, the lines printed, the exception that
      ends a run) are threaded through a small state and error monad. *)

From Stdlib Require Import List String Ascii ZArith Bool Lia Arith.
From Stdlib Require Import Permutation Sorted.
From Stdlib Require Import Floats.SpecFloat DecimalString Setoid.
Import ListNotations.

Local Open Scope string_scope.
Local Open Scope list_scope.

(** ** Python strings *)

Module PyStr.

(** [s.rfind(c)]: the highest index of [c] in [s], [-1] when absent. *)
Fixpoint rfind (c : ascii) (s : string) : Z :=
  match s with
  | EmptyString => (-1)%Z
  | String a s' =>
      let r := rfind c s' in
      if (0 <=? r)%Z then (r + 1)%Z
      else if Ascii.eqb a c then 0%Z else (-1)%Z
  end.

(** [s[n:]] for [0 <= n]. *)
Fixpoint drop (n : nat) (s : string) : string :=
  match n, s with
  | O, _ => s
  | S _, EmptyString => EmptyString
  | S n', String _ s' => drop n' s'
  end.

(** [s[:n]] for [0 <= n]. *)
Fixpoint take (n : nat) (s : string) : string :=
  match n, s with
  | O, _ => EmptyString
  | S _, EmptyString => EmptyString
  | S n', String a s' => String a (take n' s')
  end.

(** [s.startswith(c)] and [s.endswith(c)] for a one-character [c]. *)
Definition startswith (s : string) (c : ascii) : bool :=
  match s with
  | String a _ => Ascii.eqb a c
  | EmptyString => false
  end.

Fixpoint endswith (s : string) (c : ascii) : bool :=
  match s with
  | EmptyString => false
  | String a EmptyString => Ascii.eqb a c
  | String _ s' => endswith s' c
  end.

(** [c in s] for a character [c]. *)
Fixpoint contains (c : ascii) (s : string) : bool :=
  match s with
  | EmptyString => false
  | String a s' => Ascii.eqb a c || contains c s'
  end.

(** [x in l] for a list of strings [l]. *)
Fixpoint mem (x : string) (l : list string) : bool :=
  match l with
  | [] => false
  | y :: l' => String.eqb x y || mem x l'
  end.

End PyStr.

(** ** os.path (posixpath) *)

Module Path.
Import PyStr.

Definition sep : ascii := "/"%char.
Definition extsep : ascii := "."%char.

(** [os.path.join(a, b)]: an absolute [b] replaces [a]; otherwise [b] is
    appended, after a separator unless [a] is empty or ends with one. *)
Definition join (a b : string) : string :=
  if startswith b sep then b
  else if (String.eqb a "" || endswith a sep)%bool then a ++ b
  else a ++ String sep b.

(** [os.path.basename(p)]: [i = p.rfind('/') + 1; return p[i:]]. *)
Definition basename (p : string) : string :=
  let i := (rfind sep p + 1)%Z in
  drop (Z.to_nat i) p.

(** The loop of [genericpath._splitext] that skips the leading dots of
    the file name: [true] when some character in
    [p[filenameIndex:filenameIndex + n]] is not a dot. *)
Fixpoint has_non_dot (p : string) (filenameIndex n : nat) : bool :=
  match n with
  | O => false
  | S n' =>
      match String.get filenameIndex p with
      | Some a =>
          if negb (Ascii.eqb a extsep) then true
          else has_non_dot p (S filenameIndex) n'
      | None => true
      end
  end.

(** [os.path.splitext(p)]: the extension starts at the last dot of the
    last component, unless that component has only dots before it. *)
Definition splitext (p : string) : string * string :=
  let sepIndex := rfind sep p in
  let dotIndex := rfind extsep p in
  if (sepIndex <? dotIndex)%Z then
    let filenameIndex := Z.to_nat (sepIndex + 1) in
    if has_non_dot p filenameIndex (Z.to_nat dotIndex - filenameIndex) then
      (take (Z.to_nat dotIndex) p, drop (Z.to_nat dotIndex) p)
    else (p, "")
  else (p, "").

End Path.

(** ** Python values and the csv writer *)

(** A Python [float]: IEEE 754 binary64. *)
Definition float : Type := spec_float.

(** The float of an integer literal such as [100.0]. *)
Definition float_of_Z (z : Z) : float := binary_normalize 53 1024 z 0 false.

(** [x < y] and [x <= y] on floats; both are [False] when an operand is
    a NaN. *)
Definition flt (x y : float) : bool := SFltb x y.
Definition fle (x y : float) : bool := SFleb x y.

Definition is_nan (x : float) : bool :=
  match x with
  | S754_nan => true
  | _ => false
  end.

(** The environment of a run: the imaging library as it answers on the
    paths of the file system, Python's two ways of printing a float,
    the paths [open] accepts for writing, what [os.path.isfile] says of
    a path and the line that waits on standard input. *)
Class Env : Type := {
  (** a decoded image (a numpy array) *)
  image : Type;
  (** [cv2.imread(path, cv2.IMREAD_GRAYSCALE)]: [None] when the file
      cannot be read or decoded *)
  imread : string -> option image;
  (** [cv2.Laplacian(image, cv2.CV_64F).var()] *)
  Laplacian_var : image -> float;
  (** [str(x)] *)
  float_str : float -> string;
  (** [f"{x:.2f}"] *)
  float_2f : float -> string;
  (** whether [open(path, mode='w')] succeeds; it raises [OSError]
      otherwise (no permission, no such directory, ...) *)
  writable : string -> bool;
  (** [os.path.isfile(path)]: the path is a regular file, or a link to
      one; the script never asks *)
  isfile : string -> bool;
  (** the line [input] finds on standard input, [None] at its end *)
  input_line : option string
}.

(** The values the script hands to the csv writer. *)
Inductive value : Type :=
| VStr (s : string)
| VBool (b : bool)
| VFloat (x : float).

Module Csv.
Import PyStr.

Definition dquote : ascii := "034"%char.
Definition CR : ascii := "013"%char.
Definition LF : ascii := "010"%char.

(** The line terminator of the default dialect. *)
Definition CRLF : string := String CR (String LF "").

(** [str(v)], what the writer applies to a field that is not a string. *)
Definition str `{Env} (v : value) : string :=
  match v with
  | VStr s => s
  | VBool true => "True"
  | VBool false => "False"
  | VFloat x => float_str x
  end.

(** [QUOTE_MINIMAL] of the default dialect: a field is quoted when it
    holds the delimiter, the quote character or a character of the line
    terminator. *)
Definition needs_quote (s : string) : bool :=
  contains ","%char s || contains dquote s || contains CR s || contains LF s.

Fixpoint double_quotes (s : string) : string :=
  match s with
  | EmptyString => EmptyString
  | String a s' =>
      if Ascii.eqb a dquote then String dquote (String dquote (double_quotes s'))
      else String a (double_quotes s')
  end.

Definition field (s : string) : string :=
  if needs_quote s then String dquote (double_quotes s ++ String dquote "")
  else s.

(** [writer.writerow(row)]: the fields joined by commas and ended by
    CR LF; a row made of one empty field is written as two quotes. *)
Definition line `{Env} (row : list value) : string :=
  let rec := String.concat "," (map (fun v => field (str v)) row) in
  let rec := match row with
             | _ :: _ => if String.eqb rec "" then String dquote (String dquote "") else rec
             | [] => rec
             end in
  rec ++ CRLF.


End Csv.

(** ** The state and error monad of a run *)

(** The exceptions that end a run, none of which the script catches:
    cv2's, when [cv2.Laplacian] is handed the [None] of a failed
    [imread]; [OSError], when [open] refuses the path of a report;
    [EOFError], when [input] finds standard input at its end. *)
Inductive exn : Type :=
| cv2_error
| OSError
| EOFError.

Inductive result (A : Type) : Type :=
| Return (a : A)
| Raise (e : exn).
Arguments Return {A} a.
Arguments Raise {A} e.

(** What a run leaves behind: the files it wrote, in writing order, each
    with the rows handed to the csv writer, and the lines it printed. *)
Record world : Type := {
  written_files : list (string * list (list value));
  printed_lines : list string
}.

Definition empty_world : world := {| written_files := []; printed_lines := [] |}.

Definition M (A : Type) : Type := world -> result A * world.

Definition ret {A} (a : A) : M A := fun w => (Return a, w).

Definition raise {A} (e : exn) : M A := fun w => (Raise e, w).

Definition bind {A B} (m : M A) (k : A -> M B) : M B :=
  fun w =>
    match m w with
    | (Return a, w') => k a w'
    | (Raise e, w') => (Raise e, w')
    end.

Notation "x <- m ;; k" := (bind m (fun x => k))
  (at level 61, m at next level, right associativity).
Notation "m ;;; k" := (bind m (fun _ => k))
  (at level 61, right associativity).

(** [print(line)]. *)
Definition print (line : string) : M unit :=
  fun w => (Return tt, {| written_files := written_files w;
                  printed_lines := printed_lines w ++ [line] |}).

(** [with open(path, mode='w') as file:] and the rows written before
    the file is closed. When [open] raises, no file is made and nothing
    of the block runs. *)
Definition write_file `{Env} (path : string) (rows : list (list value)) : M unit :=
  fun w =>
    if writable path
    then (Return tt, {| written_files := written_files w ++ [(path, rows)];
                        printed_lines := printed_lines w |})
    else (Raise OSError, w).

(** [input(prompt)]: the prompt goes to standard output (it is kept as
    a printed line), then a line is read; at the end of standard input
    [EOFError] is raised. *)
Definition input `{Env} (prompt : string) : M string :=
  print prompt ;;;
  match input_line with
  | Some line => ret line
  | None => raise EOFError
  end.

(** A [for] loop whose body has no result. *)
Fixpoint for_each {A} (l : list A) (body : A -> M unit) : M unit :=
  match l with
  | [] => ret tt
  | x :: l' => body x ;;; for_each l' body
  end.

(** A loop (or comprehension) that collects one result per element. *)
Fixpoint collect {A B} (l : list A) (body : A -> M B) : M (list B) :=
  match l with
  | [] => ret []
  | x :: l' =>
      y <- body x ;;
      ys <- collect l' body ;;
      ret (y :: ys)
  end.

(** ** The file system seen by os.walk *)

#[local] Set Warnings "-register-all".

(** A directory entry as [os.walk] sorts it: a directory, or anything
    else. [File] stands for every entry that is not a directory, which
    [os.walk] puts in [files] whatever it is: a regular file, but also a
    FIFO, a socket, a device or a symbolic link that leads nowhere;
    [isfile] tells which of them are regular files. A directory may
    refuse to be listed (no permission, or a symbolic link that
    [os.walk] does not follow): it is then named by its parent and
    yields nothing. *)
Inductive node : Type :=
| File
| Dir (listable : bool) (entries : list (string * node)).

Definition is_dir (n : node) : bool :=
  match n with
  | Dir _ _ => true
  | File => false
  end.

Definition dirnames (entries : list (string * node)) : list string :=
  map fst (filter (fun e => is_dir (snd e)) entries).

Definition filenames (entries : list (string * node)) : list string :=
  map fst (filter (fun e => negb (is_dir (snd e))) entries).

(** [os.walk(top)], top down, with [onerror=None]: a directory that
    cannot be listed is skipped silently, the top one included. *)
Fixpoint walk (top : string) (n : node) : list (string * list string * list string) :=
  match n with
  | File => []
  | Dir false _ => []
  | Dir true entries =>
      (top, dirnames entries, filenames entries)
      :: flat_map (fun e => let '(name, child) := e in
                            if is_dir child then walk (Path.join top name) child
                            else [])
                  entries
  end.

(** [os.walk(dir_path)] when [dir_path] denotes [fs] ([None]: nothing). *)
Definition os_walk (dir_path : string) (fs : option node)
  : list (string * list string * list string) :=
  match fs with
  | Some n => walk dir_path n
  | None => []
  end.

(** ** list.sort *)

(** [l.sort(key=key)]: Python's sort is stable and compares the keys
    with [<] only. Where [<] orders the keys (no NaN among them) its
    result is the one of this stable insertion sort. *)
Fixpoint insert_by {A} (key : A -> float) (x : A) (l : list A) : list A :=
  match l with
  | [] => [x]
  | y :: l' => if flt (key y) (key x) then y :: insert_by key x l'
               else x :: y :: l'
  end.

Definition list_sort {A} (key : A -> float) (l : list A) : list A :=
  fold_right (insert_by key) [] l.

(** The keys of [a] and [b] are in order ([<=]). *)
Definition key_le {A} (key : A -> float) (a b : A) : Prop :=
  fle (key a) (key b) = true.

(** ** blurred.py *)

(** The tuple [(image_path, file_name, blurry, laplacian)]. *)
Definition record : Type := string * string * bool * float.

Definition full_path (r : record) : string := fst (fst (fst r)).
Definition file_name (r : record) : string := snd (fst (fst r)).
Definition blurry (r : record) : bool := snd (fst r).
Definition variance (r : record) : float := snd r.

Definition row_of_record (r : record) : list value :=
  [VStr (full_path r); VStr (file_name r); VBool (blurry r); VFloat (variance r)].

Definition default_filename : string := "image_analysis_results.csv".

Definition headers : list value :=
  [VStr "Full Path"; VStr "File Name"; VStr "Is Blurry"; VStr "Laplacian Variance"].

Definition default_file_types : list string :=
  [".jpg"; ".jpeg"; ".png"; ".tiff"; ".NEF"].

Definition default_threshold : float := float_of_Z 100.

Section Script.
Context `{Env}.

(** [to_csv(data, dir_path, filename)]. *)
Definition to_csv (data : list record) (dir_path filename : string) : M unit :=
  let file_path := Path.join dir_path filename in
  write_file file_path (headers :: map row_of_record data) ;;;
  print ("Data successfully exported to " ++ file_path).

(** [cv2.Laplacian(image, cv2.CV_64F).var()]: cv2 raises on [None]. *)
Definition laplacian_variance (image : option image) : M float :=
  match image with
  | Some img => ret (Laplacian_var img)
  | None => raise cv2_error
  end.

(** [is_blurry(image_path, threshold, verbose)]. *)
Definition is_blurry (image_path : string) (threshold : float) (verbose : bool)
  : M (bool * float) :=
  let image := imread image_path in
  laplacian_var <- laplacian_variance image ;;
  if flt laplacian_var threshold then
    (if verbose
     then print ("L'image est floue. Variance Laplacienne: " ++ float_2f laplacian_var)
     else ret tt) ;;;
    ret (true, laplacian_var)
  else
    (if verbose
     then print ("L'image est nette. Variance Laplacienne: " ++ float_2f laplacian_var)
     else ret tt) ;;;
    ret (false, laplacian_var).

(** A future of the pool: the outcome of the call it ran. *)
Definition future (A : Type) : Type := result A.

(** [executor.submit(fn, ...)]: the call runs in the pool, what it raises
    is kept in its future. *)
Definition submit {A} (call : M A) : M (future A) :=
  fun w => let '(r, w') := call w in (Return r, w').

(** [future.result()]: the value of the call, or its exception raised
    again. *)
Definition future_result {A} (f : future A) : M A :=
  match f with
  | Return a => ret a
  | Raise e => raise e
  end.

(** The images of one directory: the comprehension
    [[os.path.join(root, file) for file in files
      if os.path.splitext(file)[1] in file_types]]. *)
Definition images_of (root : string) (files file_types : list string) : list string :=
  map (Path.join root)
      (filter (fun file => PyStr.mem (snd (Path.splitext file)) file_types) files).

(** The [with ThreadPoolExecutor(max_workers=8)] block of one directory:
    every image is submitted, then the futures are read in submission
    order (a dict keeps insertion order) and one tuple per image is
    appended to [results]. *)
Definition evaluate_directory (root : string) (files file_types : list string)
    (threshold : float) : M (list record) :=
  let images := images_of root files file_types in
  futures <- collect images (fun img =>
               f <- submit (is_blurry img threshold false) ;; ret (f, img)) ;;
  collect futures (fun fi =>
    let '(f, image_path) := fi in
    bl <- future_result f ;;
    let '(blurry, laplacian) := bl in
    let file_name := Path.basename image_path in
    ret (image_path, file_name, blurry, laplacian)).

(** The body of the loop over [os.walk(dir_path)]. *)
Definition analyze_directory (file_types : list string) (threshold : float)
    (sort export_to_csv : bool) (entry : string * list string * list string)
  : M unit :=
  let '(root, dirs, files) := entry in
  results <- evaluate_directory root files file_types threshold ;;
  let results := if sort then list_sort variance results else results in
  if (export_to_csv && negb (Nat.eqb (List.length results) 0))%bool
  then to_csv results root default_filename
  else ret tt.

(** [analyze_images_blurriness(dir_path, file_types, threshold, sort,
    export_to_csv)], run where [dir_path] denotes [fs]. *)
Definition analyze_images_blurriness (fs : option node) (dir_path : string)
    (file_types : list string) (threshold : float) (sort export_to_csv : bool)
  : M unit :=
  for_each (os_walk dir_path fs)
           (analyze_directory file_types threshold sort export_to_csv).

(** The script itself, [args.dir_path] being [dir_path]: the analysis
    with the default threshold, sorting and export, then [input]. *)
Definition main (fs : option node) (dir_path : string) : M unit :=
  let file_types := [".jpg"; ".jpeg"; ".png"; ".tiff"; ".NEF"] in
  analyze_images_blurriness fs dir_path file_types default_threshold true true ;;;
  input "Appuyez sur Entrée pour fermer..." ;;;
  ret tt.

End Script.

(** ** Notions used to state the properties *)

(** A name as a directory listing gives it: not empty, no separator. *)
Definition name_ok (name : string) : bool :=
  negb (String.eqb name "") && negb (PyStr.contains Path.sep name).

(** A tree as a file system holds it: every entry has such a name and no
    two entries of a directory share one. *)
Fixpoint tree_ok (n : node) : bool :=
  match n with
  | File => true
  | Dir _ entries =>
      (fix all (l : list (string * node)) : bool :=
         match l with
         | [] => true
         | e :: l' =>
             let '(name, child) := e in
             name_ok name && negb (PyStr.mem name (map fst l'))
             && tree_ok child && all l'
         end) entries
  end.

(** A path that is not empty and does not end with the separator. *)
Definition plain (r : string) : Prop :=
  r <> "" /\ PyStr.endswith r Path.sep = false.

(** [dir_at top n root entries]: the walk started at [top], which
    denotes [n], visits the directory [root], whose entries are
    [entries]. *)
Inductive dir_at : string -> node -> string -> list (string * node) -> Prop :=
| dir_here top entries :
    dir_at top (Dir true entries) top entries
| dir_below top entries name child root es :
    In (name, child) entries ->
    dir_at (Path.join top name) child root es ->
    dir_at top (Dir true entries) root es.

(** The outcome of a run and what it wrote and printed. *)
Definition outcome {A} (r : result A * world) : result A := fst r.
Definition written {A} (r : result A * world) : list (string * list (list value)) :=
  written_files (snd r).
Definition printed {A} (r : result A * world) : list string :=
  printed_lines (snd r).

(** The variances of a list of records never decrease from a row to the
    next one. *)
Definition ascending (rs : list record) : Prop :=
  forall i r1 r2,
    nth_error rs i = Some r1 -> nth_error rs (S i) = Some r2 ->
    fle (variance r1) (variance r2) = true.

(** The records of [rs] whose variance equals [v] (Python's [==]). *)
Definition with_variance (v : float) (rs : list record) : list record :=
  filter (fun r => SFeqb (variance r) v) rs.

Section Reading.
Context `{Env}.

(** What [is_blurry] returns for one image and the tuple the loop
    appends for it. *)
Definition eval_image (threshold : float) (image_path : string) : result record :=
  match imread image_path with
  | Some img =>
      Return (image_path, Path.basename image_path,
              flt (Laplacian_var img) threshold, Laplacian_var img)
  | None => Raise cv2_error
  end.

(** The [results] of a list of images: the first failure ends the loop. *)
Fixpoint eval_images (threshold : float) (images : list string) : result (list record) :=
  match images with
  | [] => Return []
  | img :: rest =>
      match eval_image threshold img with
      | Raise e => Raise e
      | Return r =>
          match eval_images threshold rest with
          | Return rs => Return (r :: rs)
          | Raise e => Raise e
          end
      end
  end.

(** [file] is the report of the directory [entry] of the walk: every
    selected image was evaluated, there is at least one, and the file,
    named [image_analysis_results.csv] in that directory, holds the
    header and one row per tuple, sorted when [sort] is set. *)
Definition report_of (file_types : list string) (threshold : float) (sort : bool)
    (entry : string * list string * list string)
    (file : string * list (list value)) : Prop :=
  let '(root, _, files) := entry in
  exists rs,
    outcome (evaluate_directory root files file_types threshold empty_world) = Return rs
    /\ rs <> []
    /\ fst file = Path.join root default_filename
    /\ snd file = headers :: map row_of_record
                               (if sort then list_sort variance rs else rs).

(** Every selected image of a directory can be read and decoded. *)
Definition all_decodable (file_types : list string)
    (entry : string * list string * list string) : Prop :=
  let '(root, _, files) := entry in
  forall img, In img (images_of root files file_types) -> imread img <> None.

End Reading.

(** ** The worker pool *)

(** The threads of one run as a transition system: the main thread
    follows the program order of [analyze_images_blurriness]; the
    workers of a [ThreadPoolExecutor] take queued calls, at most
    [max_workers] at a time, and finish them at any later moment,
    unless the call never returns. *)
Module Pool.

Inductive status : Type :=
| Queued
| Running
| Done.

(** A submitted call of [is_blurry]: the directory (its rank in the
    walk) whose executor got it, the image, and how far it is. *)
Record task : Type := {
  t_dir : nat;
  t_img : string;
  t_status : status
}.

(** Where the main thread is. *)
Inductive pc : Type :=
| Enter (d : nat)                        (* the [for] over [os.walk] takes directory [d] *)
| Submitting (d : nat) (todo : list string)  (* the dict comprehension *)
| Reading (d : nat) (todo : list string) (* the [for] over the futures *)
| Leaving (d : nat) (raised : bool)      (* the end of the [with] block *)
| Reporting (d : nat) (n : nat)          (* the sort and [to_csv], [n] results *)
| Stopped (raised : bool).

Record state : Type := {
  at_pc : pc;
  tasks : list task;        (* every call submitted so far, oldest first *)
  reports : list nat        (* the directories whose report is written *)
}.

Definition max_workers : nat := 8.

Definition is_done (t : task) : bool :=
  match t_status t with
  | Done => true
  | _ => false
  end.

Definition is_running (t : task) : bool :=
  match t_status t with
  | Running => true
  | _ => false
  end.

Definition of_dir (d : nat) (t : task) : bool := Nat.eqb (t_dir t) d.

(** The calls of directory [d] being run. *)
Definition running (d : nat) (ts : list task) : nat :=
  List.length (filter (fun t => of_dir d t && is_running t) ts).

Definition set_status (t : task) (s : status) : task :=
  {| t_dir := t_dir t; t_img := t_img t; t_status := s |}.

Section Steps.
(** The selected images of each directory of the walk, whether the
    evaluation of an image raises, whether it never returns, whether
    [open] refuses the report of a directory (by its rank in the walk),
    and the flag [export_to_csv]. *)
Variable dirs : list (list string).
Variable fails : string -> bool.
Variable hangs : string -> bool.
Variable unwritable : nat -> bool.
Variable export_to_csv : bool.

Inductive step : state -> state -> Prop :=
(* the loop over [os.walk] takes the next directory and enters [with] *)
| step_enter d imgs ts rp :
    nth_error dirs d = Some imgs ->
    step {| at_pc := Enter d; tasks := ts; reports := rp |}
         {| at_pc := Submitting d imgs; tasks := ts; reports := rp |}
(* [os.walk] is exhausted *)
| step_exhausted d ts rp :
    nth_error dirs d = None ->
    step {| at_pc := Enter d; tasks := ts; reports := rp |}
         {| at_pc := Stopped false; tasks := ts; reports := rp |}
(* [executor.submit(is_blurry, img, threshold)] *)
| step_submit d img todo ts rp :
    step {| at_pc := Submitting d (img :: todo); tasks := ts; reports := rp |}
         {| at_pc := Submitting d todo;
            tasks := ts ++ [{| t_dir := d; t_img := img; t_status := Queued |}];
            reports := rp |}
(* the dict of futures is built: the loop over it starts *)
| step_submitted d imgs ts rp :
    nth_error dirs d = Some imgs ->
    step {| at_pc := Submitting d []; tasks := ts; reports := rp |}
         {| at_pc := Reading d imgs; tasks := ts; reports := rp |}
(* [future.result()] returns once the call is done *)
| step_result d img todo ts rp :
    In {| t_dir := d; t_img := img; t_status := Done |} ts ->
    fails img = false ->
    step {| at_pc := Reading d (img :: todo); tasks := ts; reports := rp |}
         {| at_pc := Reading d todo; tasks := ts; reports := rp |}
(* [future.result()] raises once the call is done: the block is left *)
| step_result_raises d img todo ts rp :
    In {| t_dir := d; t_img := img; t_status := Done |} ts ->
    fails img = true ->
    step {| at_pc := Reading d (img :: todo); tasks := ts; reports := rp |}
         {| at_pc := Leaving d true; tasks := ts; reports := rp |}
(* every future is read: the block is left *)
| step_read d ts rp :
    step {| at_pc := Reading d []; tasks := ts; reports := rp |}
         {| at_pc := Leaving d false; tasks := ts; reports := rp |}
(* [__exit__] is [shutdown(wait=True)]: it returns when every call of
   this executor is done; a pending exception then ends the run *)
| step_leave d raised imgs ts rp :
    forallb is_done (filter (of_dir d) ts) = true ->
    nth_error dirs d = Some imgs ->
    step {| at_pc := Leaving d raised; tasks := ts; reports := rp |}
         {| at_pc := if raised then Stopped true else Reporting d (List.length imgs);
            tasks := ts; reports := rp |}
(* [if export_to_csv and results: to_csv(results, root)], when the
   report is not asked for or [open] accepts its path *)
| step_report d n ts rp :
    (export_to_csv && negb (Nat.eqb n 0) && unwritable d)%bool = false ->
    step {| at_pc := Reporting d n; tasks := ts; reports := rp |}
         {| at_pc := Enter (S d); tasks := ts;
            reports := if (export_to_csv && negb (Nat.eqb n 0))%bool
                       then rp ++ [d] else rp |}
(* [to_csv(results, root)] when [open] raises: the run ends *)
| step_report_raises d n ts rp :
    (export_to_csv && negb (Nat.eqb n 0) && unwritable d)%bool = true ->
    step {| at_pc := Reporting d n; tasks := ts; reports := rp |}
         {| at_pc := Stopped true; tasks := ts; reports := rp |}
(* a worker of the executor of its directory takes a queued call *)
| step_start p ts1 t ts2 rp :
    t_status t = Queued ->
    running (t_dir t) (ts1 ++ t :: ts2) < max_workers ->
    step {| at_pc := p; tasks := ts1 ++ t :: ts2; reports := rp |}
         {| at_pc := p; tasks := ts1 ++ set_status t Running :: ts2; reports := rp |}
(* a worker finishes its call, when the call returns *)
| step_finish p ts1 t ts2 rp :
    t_status t = Running ->
    hangs (t_img t) = false ->
    step {| at_pc := p; tasks := ts1 ++ t :: ts2; reports := rp |}
         {| at_pc := p; tasks := ts1 ++ set_status t Done :: ts2; reports := rp |}.

Definition initial : state :=
  {| at_pc := Enter 0; tasks := []; reports := [] |}.

Inductive reachable : state -> Prop :=
| reach_initial : reachable initial
| reach_step s s' : reachable s -> step s s' -> reachable s'.

End Steps.

(** The directory the main thread is in. *)
Definition current (p : pc) : option nat :=
  match p with
  | Enter _ => None
  | Submitting d _ => Some d
  | Reading d _ => Some d
  | Leaving d _ => Some d
  | Reporting _ _ => None
  | Stopped _ => None
  end.

(** What holds in every state a run reaches: the calls of the earlier
    directories are done, only the directory the main thread is in may
    have calls queued or running, its calls are the images submitted so
    far, and the reports written are those of earlier directories. *)
Definition inv (dirs : list (list string)) (s : state) : Prop :=
  let ts := tasks s in
  let all_done := forall t, In t ts -> t_status t = Done in
  let others_done d := forall t, In t ts -> t_dir t <> d -> t_status t = Done in
  let upto d := forall t, In t ts -> t_dir t <= d in
  let earlier d := forall r, In r (reports s) -> r < d in
  let submitted d := map t_img (filter (of_dir d) ts) in
  match at_pc s with
  | Enter d => all_done /\ (forall t, In t ts -> t_dir t < d) /\ earlier d
  | Submitting d todo =>
      others_done d /\ upto d /\ earlier d
      /\ nth_error dirs d = Some (submitted d ++ todo)
  | Reading d _ | Leaving d _ =>
      others_done d /\ upto d /\ earlier d /\ nth_error dirs d = Some (submitted d)
  | Reporting d n =>
      all_done /\ upto d /\ earlier d /\ nth_error dirs d = Some (submitted d)
  | Stopped _ => all_done
  end.

End Pool.

Section PoolOfRun.
Context `{Env}.

(** The pool of a run of [analyze_images_blurriness]. *)
Definition pool_dirs (fs : option node) (dir_path : string) (file_types : list string)
  : list (list string) :=
  map (fun entry => let '(root, _, files) := entry in images_of root files file_types)
      (os_walk dir_path fs).

Definition pool_fails (img : string) : bool :=
  match imread img with
  | Some _ => false
  | None => true
  end.

(** Whether [open] refuses the report of the directory of rank [d]. *)
Definition pool_unwritable (fs : option node) (dir_path : string) (d : nat) : bool :=
  match nth_error (os_walk dir_path fs) d with
  | Some (root, _, _) => negb (writable (Path.join root default_filename))
  | None => false
  end.

End PoolOfRun.

(** ** A sample environment *)

(** A directory [d] with images of variance 40.0, 250.0 and 100.0, a
    file that does not decode, a link that leads nowhere and a
    subdirectory that cannot be written, used to run the script on
    concrete inputs. *)
Module Sample.

Definition f40 : float := float_of_Z 40.
Definition f100 : float := float_of_Z 100.
Definition f250 : float := float_of_Z 250.

(** The bytes of the regular files of the sample. *)
Definition bytes (path : string) : option (list Byte.byte) :=
  if String.eqb path "d/a.jpg" then Some [Byte.x01]
  else if String.eqb path "d/b.png" then Some [Byte.x02]
  else if String.eqb path "d/c.jpg" then Some [Byte.xff]
  else if String.eqb path "d/sub/copy.jpg" then Some [Byte.x01]
  else if String.eqb path "d/edge/e.tiff" then Some [Byte.x03]
  else if String.eqb path "d/frozen/f.jpg" then Some [Byte.x02]
  else None.

(** The decoded images of the sample, told apart by their sharpness. *)
Inductive picture : Type :=
| Soft
| Edge
| Sharp.

Definition decode (b : list Byte.byte) : option picture :=
  match b with
  | [Byte.x01] => Some Soft
  | [Byte.x02] => Some Sharp
  | [Byte.x03] => Some Edge
  | _ => None
  end.

Definition variance_of (p : picture) : float :=
  match p with
  | Soft => f40
  | Edge => f100
  | Sharp => f250
  end.

(** The value of a float when it is a non-negative integer. *)
Definition integral (x : float) : option Z :=
  match x with
  | S754_zero _ => Some 0%Z
  | S754_finite false m e =>
      if (0 <=? e)%Z then Some (Zpos m * 2 ^ e)%Z
      else if (Zpos m mod 2 ^ (- e) =? 0)%Z then Some (Zpos m / 2 ^ (- e))%Z
      else None
  | _ => None
  end.

(** Python prints the float of a small non-negative integer as its
    digits followed by [.0], and by [.00] under [:.2f]; the sample holds
    no other float. *)
Definition print_float (decimals : string) (x : float) : string :=
  match integral x with
  | Some z => NilZero.string_of_int (Z.to_int z) ++ decimals
  | None => "nan"
  end.

(** [d/frozen] is a directory without the permission to write. *)
Definition frozen (path : string) : bool := String.prefix "d/frozen/" path.

(** The sample: the regular files are those with bytes, the Enter key
    was pressed on standard input. *)
Definition env : Env := {|
  image := picture;
  imread := fun path => match bytes path with
                        | Some b => decode b
                        | None => None
                        end;
  Laplacian_var := variance_of;
  float_str := print_float ".0";
  float_2f := print_float ".00";
  writable := fun path => negb (frozen path);
  isfile := fun path => match bytes path with
                        | Some _ => true
                        | None => false
                        end;
  input_line := Some ""
|}.

(** The same, with standard input closed. *)
Definition env_no_stdin : Env := {|
  image := picture;
  imread := @imread env;
  Laplacian_var := variance_of;
  float_str := print_float ".0";
  float_2f := print_float ".00";
  writable := @writable env;
  isfile := @isfile env;
  input_line := None
|}.

Definition two_images : node :=
  Dir true [("a.jpg", File); ("b.png", File)].


Definition nested : node :=
  Dir true [("b.png", File); ("notes.txt", File); ("a.jpg", File);
            ("sub", Dir true [("copy.jpg", File)]);
            ("empty", Dir true [("photo.JPG", File)]);
            ("edge", Dir true [("e.tiff", File)]);
            ("locked", Dir false [("x.jpg", File)])].

(** The second directory of the walk holds [lost.png], a symbolic link
    that leads nowhere: no bytes, and nothing to decode. *)
Definition corrupt_below : node :=
  Dir true [("a.jpg", File); ("sub", Dir true [("lost.png", File)]);
            ("edge", Dir true [("e.tiff", File)])].

(** The second directory of the walk refuses the report. *)
Definition frozen_below : node :=
  Dir true [("a.jpg", File); ("frozen", Dir true [("f.jpg", File)]);
            ("edge", Dir true [("e.tiff", File)])].

Definition record_a : record := ("d/a.jpg", "a.jpg", true, f40).
Definition record_b : record := ("d/b.png", "b.png", false, f250).
Definition record_copy : record := ("d/sub/copy.jpg", "copy.jpg", true, f40).
Definition record_edge : record := ("d/edge/e.tiff", "e.tiff", false, f100).

Definition report_d : string * list (list value) :=
  ("d/image_analysis_results.csv",
   [headers; row_of_record record_a; row_of_record record_b]).

Definition report_sub : string * list (list value) :=
  ("d/sub/image_analysis_results.csv", [headers; row_of_record record_copy]).

Definition report_edge : string * list (list value) :=
  ("d/edge/image_analysis_results.csv", [headers; row_of_record record_edge]).

Definition run (fs : option node) : result unit * world :=
  @analyze_images_blurriness env fs "d" default_file_types default_threshold true true
    empty_world.

(** A state of the pool of the run over [two_images]: both calls are
    done and read, the report of the directory is about to be written. *)
Definition pool_state : Pool.state :=
  {| Pool.at_pc := Pool.Reporting 0 2;
     Pool.tasks := [ {| Pool.t_dir := 0; Pool.t_img := "d/a.jpg";
                        Pool.t_status := Pool.Done |};
                     {| Pool.t_dir := 0; Pool.t_img := "d/b.png";
                        Pool.t_status := Pool.Done |} ];
     Pool.reports := [] |}.

End Sample.

(** ** The rest of blurred.py *)

(** [get_fullpath_images_from_directory(dir_path, file_types)], run
    where [dir_path] denotes [fs]: the two nested loops append the
    matching paths to [file_list]. *)
Definition get_fullpath_images_from_directory (fs : option node) (dir_path : string)
    (file_types : list string) : list string :=
  fold_left
    (fun file_list entry =>
       let '(root, dirs, files) := entry in
       fold_left
         (fun file_list file =>
            if PyStr.mem (snd (Path.splitext file)) file_types
            then file_list ++ [Path.join root file]
            else file_list)
         files file_list)
    (os_walk dir_path fs) [].

(** ** More notions *)

(** The line [to_csv] prints for a file. *)
Definition export_message (file : string * list (list value)) : string :=
  ("Data successfully exported to " ++ fst file)%string.

(** The column Full Path of a written file: the first field of each row
    after the header. *)
Definition path_column (file : string * list (list value)) : list string :=
  flat_map (fun row => match row with
                       | VStr p :: _ => [p]
                       | _ => []
                       end)
           (tl (snd file)).

(** A row without its column Is Blurry. *)
Definition without_flag (row : list value) : list value :=
  match row with
  | [p; name; _; v] => [p; name; v]
  | _ => row
  end.

(** Two tuples that differ at most by their flag. *)
Definition same_but_flag (r1 r2 : record) : Prop :=
  full_path r1 = full_path r2 /\ file_name r1 = file_name r2
  /\ variance r1 = variance r2.

(** The path of the report of a directory of the walk, and whether the
    directory has a selected image. *)
Definition report_path (entry : string * list string * list string) : string :=
  Path.join (fst (fst entry)) default_filename.

Definition has_images (file_types : list string)
    (entry : string * list string * list string) : bool :=
  let '(root, _, files) := entry in
  negb (Nat.eqb (List.length (images_of root files file_types)) 0).

Section MoreReading.
Context `{Env}.

(** Whether [cv2.imread] gives an image for a path, and whether it does
    for every selected image of a directory. *)
Definition decodes (image_path : string) : bool :=
  match imread image_path with
  | Some _ => true
  | None => false
  end.

Definition entry_decodes (file_types : list string)
    (entry : string * list string * list string) : bool :=
  let '(root, _, files) := entry in
  forallb decodes (images_of root files file_types).

(** How the body of the loop ends on a directory: on cv2's error when a
    selected image does not decode; if not, on [OSError] when the report
    is asked for, there is an image and [open] refuses the path of the
    report; normally otherwise. *)
Definition entry_outcome (file_types : list string) (export_to_csv : bool)
    (entry : string * list string * list string) : result unit :=
  if negb (entry_decodes file_types entry) then Raise cv2_error
  else if (export_to_csv && has_images file_types entry
           && negb (writable (report_path entry)))%bool
       then Raise OSError
       else Return tt.

Definition entry_passes (file_types : list string) (export_to_csv : bool)
    (entry : string * list string * list string) : bool :=
  match entry_outcome file_types export_to_csv entry with
  | Return _ => true
  | Raise _ => false
  end.

(** The same as a proposition: every selected image decodes and, under
    [export_to_csv], the report can be opened if there is one to write. *)
Definition proceeds (file_types : list string) (export_to_csv : bool)
    (entry : string * list string * list string) : Prop :=
  all_decodable file_types entry
  /\ (export_to_csv = true -> has_images file_types entry = true ->
      writable (report_path entry) = true).

(** How the loop over the walk ends: on the first failure. *)
Fixpoint walk_outcome (file_types : list string) (export_to_csv : bool)
    (l : list (string * list string * list string)) : result unit :=
  match l with
  | [] => Return tt
  | entry :: l' =>
      match entry_outcome file_types export_to_csv entry with
      | Return _ => walk_outcome file_types export_to_csv l'
      | Raise e => Raise e
      end
  end.

(** The directories of the walk that come before the first failure. *)
Fixpoint before_failure (file_types : list string) (export_to_csv : bool)
    (l : list (string * list string * list string))
  : list (string * list string * list string) :=
  match l with
  | [] => []
  | entry :: l' =>
      if entry_passes file_types export_to_csv entry
      then entry :: before_failure file_types export_to_csv l'
      else []
  end.

(** The report of a directory whose images all decode: none when it has
    no selected image. *)
Definition report_for (file_types : list string) (threshold : float) (sort : bool)
    (entry : string * list string * list string)
  : list (string * list (list value)) :=
  let '(root, _, files) := entry in
  match eval_images threshold (images_of root files file_types) with
  | Return (r :: rs) =>
      [(Path.join root default_filename,
        headers :: map row_of_record
                     (if sort then list_sort variance (r :: rs) else r :: rs))]
  | _ => []
  end.

End MoreReading.

(** ** More on the worker pool *)

Module PoolMore.
Import Pool.

(** The calls being run, whatever their directory. *)
Definition running_all (ts : list task) : nat :=
  List.length (filter is_running ts).

(** Every image of [imgs] was evaluated without an error. *)
Definition good (fails : string -> bool) (imgs : list string) : Prop :=
  forall img, In img imgs -> fails img = false.

(** The directories before [d] went through: no image of theirs failed
    and, under [export_to_csv], those with an image have their report,
    which [open] accepted. *)
Definition processed (dirs : list (list string)) (fails : string -> bool)
    (unwritable : nat -> bool) (export_to_csv : bool) (s : state) (d : nat) : Prop :=
  forall d' imgs, d' < d -> nth_error dirs d' = Some imgs ->
    good fails imgs
    /\ (export_to_csv = true -> imgs <> [] ->
        In d' (reports s) /\ unwritable d' = false).

(** An image of directory [d] failed. *)
Definition failed (dirs : list (list string)) (fails : string -> bool) (d : nat) : Prop :=
  exists imgs img, nth_error dirs d = Some imgs /\ In img imgs /\ fails img = true.

(** The images of directory [d] were evaluated and [open] refused its
    report. *)
Definition refused (dirs : list (list string)) (fails : string -> bool)
    (unwritable : nat -> bool) (export_to_csv : bool) (d : nat) : Prop :=
  exists imgs, nth_error dirs d = Some imgs /\ good fails imgs /\ imgs <> []
               /\ export_to_csv = true /\ unwritable d = true.

(** What the main thread has read so far. The directories it is done
    with went through; while it reads the futures of a directory, the
    images already read did not fail; it leaves the block with a
    pending exception only when an image of the directory failed, and
    reports only when none did; it stops on an error only when an image
    failed or [open] refused a report. A report is written once, under
    [export_to_csv], for a directory with an image, none of which
    failed, at a path [open] accepted. *)
Definition inv_read (dirs : list (list string)) (fails : string -> bool)
    (unwritable : nat -> bool) (export_to_csv : bool) (s : state) : Prop :=
  let processed := processed dirs fails unwritable export_to_csv s in
  match at_pc s with
  | Enter d => processed d
  | Submitting d _ => processed d
  | Reading d todo =>
      processed d
      /\ exists read, nth_error dirs d = Some (read ++ todo) /\ good fails read
  | Leaving d false =>
      processed d /\ exists imgs, nth_error dirs d = Some imgs /\ good fails imgs
  | Leaving d true => processed d /\ failed dirs fails d
  | Reporting d n =>
      processed d
      /\ exists imgs, nth_error dirs d = Some imgs /\ good fails imgs
                      /\ n = List.length imgs
  | Stopped false => processed (List.length dirs)
  | Stopped true =>
      exists d, processed d
                /\ (failed dirs fails d \/ refused dirs fails unwritable export_to_csv d)
  end
  /\ NoDup (reports s)
  /\ forall r, In r (reports s) ->
       export_to_csv = true /\ unwritable r = false
       /\ exists imgs, nth_error dirs r = Some imgs /\ imgs <> [] /\ good fails imgs.

End PoolMore.

(** ** More of the sample *)

Module MoreSample.

(** The walk of [Sample.corrupt_below]: its first directory decodes,
    the second has only an image that does not, so a run ends there. *)
Definition decoding_part : list (string * list string * list string) :=
  [("d", ["sub"; "edge"], ["a.jpg"])]%string.

Definition failing_part : list (string * list string * list string) :=
  [("d/sub", [], ["lost.png"]); ("d/edge", [], ["e.tiff"])]%string.



(** No call of the sample hangs. *)
Definition returns (img : string) : bool := false.

(** Every call of the sample hangs. *)
Definition stalls (img : string) : bool := true.

(** The state of the pool over [Sample.frozen_below] once [open] has
    refused the report of its second directory. *)
Definition refused_state : Pool.state :=
  {| Pool.at_pc := Pool.Stopped true;
     Pool.tasks := [ {| Pool.t_dir := 0; Pool.t_img := "d/a.jpg";
                        Pool.t_status := Pool.Done |};
                     {| Pool.t_dir := 1; Pool.t_img := "d/frozen/f.jpg";
                        Pool.t_status := Pool.Done |} ];
     Pool.reports := [0] |}.

(** A state of the pool over [Sample.two_images] in which both calls are
    running. *)
Definition both_running : Pool.state :=
  {| Pool.at_pc := Pool.Reading 0 ["d/a.jpg"; "d/b.png"]%string;
     Pool.tasks := [ {| Pool.t_dir := 0; Pool.t_img := "d/a.jpg";
                        Pool.t_status := Pool.Running |};
                     {| Pool.t_dir := 0; Pool.t_img := "d/b.png";
                        Pool.t_status := Pool.Running |} ];
     Pool.reports := [] |}.


End MoreSample.

(** * Properties *)

(** ** The library functions on examples *)

Example join_relative : Path.join "d" "a.jpg" = "d/a.jpg".
Proof. reflexivity. Qed.

Example join_after_separator : Path.join "d/" "a.jpg" = "d/a.jpg".
Proof. reflexivity. Qed.

Example join_absolute : Path.join "d" "/tmp/a.jpg" = "/tmp/a.jpg".
Proof. reflexivity. Qed.

Example basename_nested : Path.basename "d/e/a.jpg" = "a.jpg".
Proof. reflexivity. Qed.

Example splitext_last_dot : Path.splitext "a.b.jpg" = ("a.b", ".jpg").
Proof. reflexivity. Qed.

Example splitext_leading_dot : Path.splitext ".jpg" = (".jpg", "").
Proof. reflexivity. Qed.

Example splitext_upper_case : snd (Path.splitext "photo.JPG") = ".JPG".
Proof. reflexivity. Qed.

Example field_with_comma :
  Csv.field "a,b.jpg" = String Csv.dquote ("a,b.jpg" ++ String Csv.dquote "").
Proof. reflexivity. Qed.

Example threshold_is_100 :
  default_threshold = S754_finite false 7036874417766400 (-46)
  /\ valid_binary 53 1024 default_threshold = true.
Proof. split; reflexivity. Qed.

Example sort_is_stable :
  list_sort snd [("x", Sample.f250); ("y", Sample.f40); ("z", Sample.f250);
                 ("t", Sample.f40)]
  = [("y", Sample.f40); ("t", Sample.f40); ("x", Sample.f250); ("z", Sample.f250)].
Proof. reflexivity. Qed.

(** ** The order of the floats *)

Lemma compare_cont_Eq_antisym (p q : positive) :
  Pos.compare_cont Eq p q = CompOpp (Pos.compare_cont Eq q p).
Proof.
  change (Pos.compare_cont Eq p q) with (p ?= q)%positive.
  change (Pos.compare_cont Eq q p) with (q ?= p)%positive.
  apply Pos.compare_antisym.
Qed.

Lemma SFcompare_antisym (x y : float) :
  SFcompare x y = option_map CompOpp (SFcompare y x).
Proof.
  destruct x as [s1|s1| |s1 m1 e1], y as [s2|s2| |s2 m2 e2]; simpl;
    try reflexivity;
    try (destruct s1; reflexivity); try (destruct s2; reflexivity);
    try (destruct s1, s2; reflexivity).
  destruct s1, s2; try reflexivity;
    rewrite (Z.compare_antisym e1 e2);
    destruct (e1 ?= e2)%Z; simpl; try reflexivity;
    rewrite (compare_cont_Eq_antisym m1 m2);
    try rewrite CompOpp_involutive; reflexivity.
Qed.

(** Without a NaN, [not (y < x)] is [x <= y]. *)
Lemma flt_false_fle (x y : float) :
  is_nan x = false -> is_nan y = false -> flt y x = false -> fle x y = true.
Proof.
  unfold flt, fle, SFltb, SFleb. intros Hx Hy.
  rewrite (SFcompare_antisym x y).
  destruct (SFcompare y x) as [[| |]|] eqn:E; simpl; try congruence.
  destruct x, y; simpl in *; congruence.
Qed.

Lemma flt_true_fle (x y : float) : flt x y = true -> fle x y = true.
Proof.
  unfold flt, fle, SFltb, SFleb.
  destruct (SFcompare x y) as [[| |]|]; congruence.
Qed.

Lemma SFcompare_Eq_common (x y v : float) :
  SFcompare y v = Some Eq -> SFcompare x v = Some Eq -> SFcompare y x = Some Eq.
Proof.
  destruct x as [s1|s1| |s1 m1 e1], y as [s2|s2| |s2 m2 e2], v as [s3|s3| |s3 m3 e3];
    simpl; try congruence;
    try (destruct s1; congruence); try (destruct s2; congruence);
    try (destruct s1, s3; congruence); try (destruct s2, s3; congruence);
    try (destruct s1, s2, s3; congruence).
  destruct s1, s2, s3; try congruence;
    destruct (e2 ?= e3)%Z eqn:E23; try congruence;
    destruct (e1 ?= e3)%Z eqn:E13; try congruence;
    apply Z.compare_eq in E23, E13; subst;
    rewrite Z.compare_refl; intros H1 H2;
    assert (Pos.compare_cont Eq m2 m3 = Eq) as H1'
      by (destruct (Pos.compare_cont Eq m2 m3); simpl in *; congruence);
    assert (Pos.compare_cont Eq m1 m3 = Eq) as H2'
      by (destruct (Pos.compare_cont Eq m1 m3); simpl in *; congruence);
    apply Pos.compare_eq in H1', H2'; subst;
    change (Pos.compare_cont Eq m3 m3) with (m3 ?= m3)%positive;
    rewrite Pos.compare_refl; reflexivity.
Qed.

(** Two floats equal to a third one are not in strict order. *)
Lemma feq_not_flt (x y v : float) :
  SFeqb y v = true -> SFeqb x v = true -> flt y x = false.
Proof.
  unfold SFeqb, flt, SFltb. intros Hy Hx.
  rewrite (SFcompare_Eq_common x y v); trivial.
  - destruct (SFcompare y v) as [[| |]|]; congruence.
  - destruct (SFcompare x v) as [[| |]|]; congruence.
Qed.

(** ** list.sort *)

Section Sorting.
Context {A : Type} (key : A -> float).

Lemma insert_by_perm (x : A) (l : list A) :
  Permutation (insert_by key x l) (x :: l).
Proof.
  induction l as [|y l IH]; simpl.
  - apply Permutation_refl.
  - destruct (flt (key y) (key x)).
    + eapply Permutation_trans; [apply perm_skip, IH | apply perm_swap].
    + apply Permutation_refl.
Qed.

Lemma list_sort_perm (l : list A) : Permutation (list_sort key l) l.
Proof.
  induction l as [|x l IH]; simpl.
  - constructor.
  - eapply Permutation_trans; [apply insert_by_perm | apply perm_skip, IH].
Qed.

Lemma list_sort_length (l : list A) : List.length (list_sort key l) = List.length l.
Proof. apply Permutation_length, list_sort_perm. Qed.

Lemma insert_by_sorted (x : A) (l : list A) :
  is_nan (key x) = false ->
  Forall (fun a => is_nan (key a) = false) l ->
  Sorted (key_le key) l -> Sorted (key_le key) (insert_by key x l).
Proof.
  intros Hx Hl Hs. induction Hs as [|y l Hs IH Hd]; simpl.
  - repeat constructor.
  - inversion Hl as [|? ? Hy Hl']; subst.
    destruct (flt (key y) (key x)) eqn:E.
    + constructor; [apply IH; assumption|].
      destruct l as [|z l]; simpl.
      * constructor. apply flt_true_fle, E.
      * destruct (flt (key z) (key x)) eqn:E'.
        -- inversion Hd; subst. constructor. assumption.
        -- constructor. apply flt_true_fle, E.
    + constructor; [constructor; assumption|].
      constructor. apply flt_false_fle; assumption.
Qed.

Lemma list_sort_sorted (l : list A) :
  Forall (fun a => is_nan (key a) = false) l -> Sorted (key_le key) (list_sort key l).
Proof.
  induction 1 as [|x l Hx Hl IH]; simpl.
  - constructor.
  - apply insert_by_sorted; trivial.
    eapply Permutation_Forall; [apply Permutation_sym, list_sort_perm | exact Hl].
Qed.

Lemma sorted_adjacent (l : list A) :
  Sorted (key_le key) l ->
  forall i a b, nth_error l i = Some a -> nth_error l (S i) = Some b -> key_le key a b.
Proof.
  induction 1 as [|x l Hs IH Hd]; intros i a b Ha Hb.
  - destruct i; discriminate.
  - destruct i as [|i]; simpl in *.
    + injection Ha as <-. destruct l as [|y l]; [discriminate|].
      injection Hb as <-. inversion Hd; assumption.
    + eapply IH; eassumption.
Qed.

(** The sort does not move an element past one with an equal key. *)
Lemma insert_by_stable (v : float) (x : A) (l : list A) :
  filter (fun a => SFeqb (key a) v) (insert_by key x l)
  = filter (fun a => SFeqb (key a) v) (x :: l).
Proof.
  induction l as [|y l IH]; [reflexivity|].
  simpl. destruct (flt (key y) (key x)) eqn:E; [|reflexivity].
  simpl. rewrite IH. simpl.
  destruct (SFeqb (key y) v) eqn:Ey, (SFeqb (key x) v) eqn:Ex; try reflexivity.
  rewrite (feq_not_flt _ _ v Ey Ex) in E. discriminate.
Qed.

Lemma list_sort_stable (v : float) (l : list A) :
  filter (fun a => SFeqb (key a) v) (list_sort key l)
  = filter (fun a => SFeqb (key a) v) l.
Proof.
  induction l as [|x l IH]; [reflexivity|].
  simpl list_sort. rewrite insert_by_stable. simpl. rewrite IH. reflexivity.
Qed.

End Sorting.

(** ** The monad *)

Lemma bind_Return {A B} (m : M A) (k : A -> M B) (w w' : world) (a : A) :
  m w = (Return a, w') -> bind m k w = k a w'.
Proof. unfold bind. intros ->. reflexivity. Qed.

Lemma bind_Raise {A B} (m : M A) (k : A -> M B) (w w' : world) (e : exn) :
  m w = (Raise e, w') -> bind m k w = (Raise e, w').
Proof. unfold bind. intros ->. reflexivity. Qed.

(** ** The evaluation of one directory *)

Section Evaluation.
Context `{Env}.

(** Without [verbose], [is_blurry] prints nothing: it only returns or
    raises. *)
Lemma is_blurry_quiet (image_path : string) (threshold : float) (w : world) :
  is_blurry image_path threshold false w
  = (match imread image_path with
     | Some img => Return (flt (Laplacian_var img) threshold, Laplacian_var img)
     | None => Raise cv2_error
     end, w).
Proof.
  unfold is_blurry, laplacian_variance, bind, ret, raise.
  destruct (imread image_path) as [img|]; [|reflexivity].
  destruct (flt (Laplacian_var img) threshold); reflexivity.
Qed.

(** The value returned or the exception raised by [is_blurry] depends
    neither on [verbose] nor on what was written and printed before. *)
Lemma is_blurry_outcome (image_path : string) (threshold : float) (verbose : bool)
    (w : world) :
  outcome (is_blurry image_path threshold verbose w)
  = match imread image_path with
    | Some img => Return (flt (Laplacian_var img) threshold, Laplacian_var img)
    | None => Raise cv2_error
    end.
Proof.
  unfold outcome, is_blurry, laplacian_variance, bind, ret, raise, print.
  destruct (imread image_path) as [img|]; [|reflexivity].
  destruct (flt (Laplacian_var img) threshold), verbose; reflexivity.
Qed.

Lemma submit_is_blurry (threshold : float) (img : string) (w : world) :
  (f <- submit (is_blurry img threshold false) ;; ret (f, img)) w
  = (Return (fst (is_blurry img threshold false empty_world), img), w).
Proof.
  rewrite (bind_Return _ _ w w (fst (is_blurry img threshold false empty_world)));
    [reflexivity|].
  unfold submit. rewrite !is_blurry_quiet. reflexivity.
Qed.

Lemma collect_submit (threshold : float) (images : list string) (w : world) :
  collect images (fun img =>
    f <- submit (is_blurry img threshold false) ;; ret (f, img)) w
  = (Return (map (fun img => (fst (is_blurry img threshold false empty_world), img))
                 images), w).
Proof.
  induction images as [|img images IH]; [reflexivity|].
  simpl collect.
  rewrite (bind_Return _ _ _ _ _ (submit_is_blurry threshold img w)).
  rewrite (bind_Return _ _ _ _ _ IH). reflexivity.
Qed.

Lemma collect_results (threshold : float) (images : list string) (w : world) :
  collect (map (fun img => (fst (is_blurry img threshold false empty_world), img)) images)
    (fun fi : future (bool * float) * string =>
       let '(f, image_path) := fi in
       bl <- future_result f ;;
       let '(blurry, laplacian) := bl in
       let file_name := Path.basename image_path in
       ret (image_path, file_name, blurry, laplacian)) w
  = (eval_images threshold images, w).
Proof.
  induction images as [|img images IH]; [reflexivity|].
  simpl collect. simpl eval_images. unfold eval_image.
  rewrite (is_blurry_quiet img threshold empty_world). simpl fst.
  destruct (imread img) as [i|].
  - rewrite (bind_Return _ _ w w
               (img, Path.basename img, flt (Laplacian_var i) threshold, Laplacian_var i));
      [|reflexivity].
    destruct (eval_images threshold images) as [rs|e].
    + rewrite (bind_Return _ _ _ _ _ IH). reflexivity.
    + rewrite (bind_Raise _ _ _ _ _ IH). reflexivity.
  - apply bind_Raise. apply bind_Raise. reflexivity.
Qed.

(** The block of one directory leaves the world as it is and returns the
    tuples of its images, or raises at the first image that failed. *)
Lemma evaluate_directory_eq (root : string) (files file_types : list string)
    (threshold : float) (w : world) :
  evaluate_directory root files file_types threshold w
  = (eval_images threshold (images_of root files file_types), w).
Proof.
  unfold evaluate_directory.
  rewrite (bind_Return _ _ _ _ _ (collect_submit threshold _ w)).
  apply collect_results.
Qed.

Lemma eval_images_Return (threshold : float) (images : list string) (rs : list record) :
  eval_images threshold images = Return rs ->
  Forall2 (fun img r => eval_image threshold img = Return r) images rs.
Proof.
  revert rs. induction images as [|img images IH]; intros rs; simpl.
  - intros [= <-]. constructor.
  - destruct (eval_image threshold img) as [r|] eqn:E; [|discriminate].
    destruct (eval_images threshold images) as [rs'|]; [|discriminate].
    intros [= <-]. constructor; auto.
Qed.

Lemma eval_images_paths (threshold : float) (images : list string) (rs : list record) :
  eval_images threshold images = Return rs -> map full_path rs = images.
Proof.
  intros E. apply eval_images_Return in E.
  induction E as [|img r images rs Hr _ IH]; [reflexivity|].
  simpl. rewrite IH. f_equal.
  unfold eval_image in Hr. destruct (imread img); [|discriminate].
  injection Hr as <-. reflexivity.
Qed.

Lemma eval_images_decodable (threshold : float) (images : list string) :
  (forall img, In img images -> imread img <> None) ->
  exists rs, eval_images threshold images = Return rs.
Proof.
  induction images as [|img images IH]; intros Hd; simpl.
  - eauto.
  - unfold eval_image.
    destruct (imread img) eqn:E; [|exfalso; apply (Hd img); simpl; auto].
    destruct IH as [rs ->]; [intros; apply Hd; simpl; auto|]. eauto.
Qed.

Lemma eval_images_undecodable (threshold : float) (images : list string) :
  (exists img, In img images /\ imread img = None) ->
  eval_images threshold images = Raise cv2_error.
Proof.
  induction images as [|img images IH]; intros [bad [Hin Hbad]]; simpl.
  - destruct Hin.
  - unfold eval_image. destruct (imread img) eqn:E; [|reflexivity].
    rewrite IH; [reflexivity|].
    exists bad. destruct Hin as [->|Hin]; [congruence|auto].
Qed.

Lemma eval_images_exn (threshold : float) (images : list string) (e : exn) :
  eval_images threshold images = Raise e ->
  exists img, In img images /\ imread img = None.
Proof.
  induction images as [|img images IH]; simpl; [discriminate|].
  unfold eval_image. destruct (imread img) eqn:E.
  - destruct (eval_images threshold images); [discriminate|].
    intros [= <-]. destruct IH as [bad [? ?]]; [reflexivity|].
    exists bad; auto.
  - intros _. exists img; auto.
Qed.

(** [to_csv] writes the file and prints its line, or raises before
    either when [open] refuses the path. *)
Lemma to_csv_eq (data : list record) (dir_path filename : string) (w : world) :
  to_csv data dir_path filename w
  = if writable (Path.join dir_path filename)
    then (Return tt,
          {| written_files :=
               written_files w ++ [(Path.join dir_path filename,
                                    headers :: map row_of_record data)];
             printed_lines :=
               printed_lines w ++ [("Data successfully exported to "
                                    ++ Path.join dir_path filename)%string] |})
    else (Raise OSError, w).
Proof.
  unfold to_csv, write_file, bind, print.
  destruct (writable (Path.join dir_path filename)); reflexivity.
Qed.

(** The body of the loop: a report and a line printed when every image
    was evaluated, there is at least one and the report can be opened;
    an error when an image failed or [open] refused the report; nothing
    otherwise. *)
Lemma analyze_directory_eq (file_types : list string) (threshold : float)
    (sort export_to_csv : bool) (root : string) (dirs files : list string) (w : world) :
  analyze_directory file_types threshold sort export_to_csv (root, dirs, files) w
  = match eval_images threshold (images_of root files file_types) with
    | Raise e => (Raise e, w)
    | Return rs =>
        let results := if sort then list_sort variance rs else rs in
        if (export_to_csv && negb (Nat.eqb (List.length rs) 0))%bool
        then if writable (Path.join root default_filename)
             then (Return tt,
                   {| written_files :=
                        written_files w ++ [(Path.join root default_filename,
                                             headers :: map row_of_record results)];
                      printed_lines :=
                        printed_lines w ++ [("Data successfully exported to "
                                             ++ Path.join root default_filename)%string] |})
             else (Raise OSError, w)
        else (Return tt, w)
    end.
Proof.
  unfold analyze_directory.
  pose proof (evaluate_directory_eq root files file_types threshold w) as E.
  destruct (eval_images threshold (images_of root files file_types)) as [rs|e].
  - rewrite (bind_Return _ _ _ _ _ E). cbv zeta.
    replace (List.length (if sort then list_sort variance rs else rs))
      with (List.length rs)
      by (destruct sort; [symmetry; apply list_sort_length | reflexivity]).
    destruct (export_to_csv && negb (Nat.eqb (List.length rs) 0))%bool;
      [apply to_csv_eq | reflexivity].
  - apply (bind_Raise _ _ _ _ _ E).
Qed.

(** The body of the loop only adds to what was written and printed. *)
Lemma analyze_directory_written (file_types : list string) (threshold : float)
    (sort export_to_csv : bool) (entry : string * list string * list string)
    (w : world) (f : string * list (list value)) :
  In f (written (analyze_directory file_types threshold sort export_to_csv entry w)) ->
  In f (written_files w) \/ (export_to_csv = true /\ report_of file_types threshold sort entry f).
Proof.
  destruct entry as [[root dirs] files]. rewrite analyze_directory_eq.
  unfold report_of, outcome. rewrite evaluate_directory_eq. simpl fst.
  destruct (eval_images threshold (images_of root files file_types)) as [rs|e];
    [|auto].
  cbv zeta. destruct export_to_csv; simpl andb; [|auto].
  destruct rs as [|r rs]; [auto|]. simpl negb. cbv iota.
  destruct (writable (Path.join root default_filename)); [|auto].
  unfold written. simpl. rewrite in_app_iff. intros [Hin|[<-|[]]]; [auto|].
  right. split; [reflexivity|]. exists (r :: rs). repeat split. discriminate.
Qed.

End Evaluation.

(** ** The run over the walk *)


Lemma for_each_cons {A} (x : A) (l : list A) (body : A -> M unit) (w : world) :
  for_each (x :: l) body w
  = match body x w with
    | (Return _, w') => for_each l body w'
    | (Raise e, w') => (Raise e, w')
    end.
Proof. reflexivity. Qed.

Section Run.
Context `{Env}.
Variables (file_types : list string) (threshold : float) (sort export_to_csv : bool).

(** Every file a run writes is the report of a directory of the walk. *)
Lemma for_each_written (l : list (string * list string * list string)) (w : world)
    (f : string * list (list value)) :
  In f (written (for_each l (analyze_directory file_types threshold sort export_to_csv)
                   w)) ->
  In f (written_files w)
  \/ exists entry, In entry l /\ report_of file_types threshold sort entry f.
Proof.
  revert w. induction l as [|entry l IH]; intros w; [simpl; auto|].
  rewrite for_each_cons.
  pose proof (analyze_directory_written file_types threshold sort export_to_csv
                entry w f) as Hw.
  destruct (analyze_directory file_types threshold sort export_to_csv entry w)
    as [[[]|e] w'].
  - intros Hin. apply IH in Hin. destruct Hin as [Hin|[entry' [? ?]]].
    + destruct (Hw Hin) as [?|[_ ?]]; [auto|]. right. exists entry. simpl. auto.
    + right. exists entry'. simpl. auto.
  - intros Hin. destruct (Hw Hin) as [?|[_ ?]]; [auto|].
    right. exists entry. simpl. auto.
Qed.

Lemma run_written (fs : option node) (dir_path : string) (f : string * list (list value)) :
  In f (written (analyze_images_blurriness fs dir_path file_types threshold sort
                   export_to_csv empty_world)) ->
  exists entry, In entry (os_walk dir_path fs)
                /\ report_of file_types threshold sort entry f.
Proof.
  intros Hin. apply for_each_written in Hin. destruct Hin as [[]|Hin]. exact Hin.
Qed.

End Run.

(** ** Strings and paths *)

Section Paths.
Import PyStr Path.
Local Open Scope string_scope.

Lemma rfind_ge (c : ascii) (s : string) : (-1 <= rfind c s)%Z.
Proof.
  induction s as [|a s IH]; simpl; [lia|].
  destruct (0 <=? rfind c s)%Z eqn:E; [apply Z.leb_le in E; lia|].
  destruct (Ascii.eqb a c); lia.
Qed.

Lemma rfind_absent (c : ascii) (s : string) :
  contains c s = false -> rfind c s = (-1)%Z.
Proof.
  induction s as [|a s IH]; simpl; [reflexivity|].
  intros Hc. apply orb_false_iff in Hc. destruct Hc as [Ha Hs].
  rewrite (IH Hs), Ha. reflexivity.
Qed.

Lemma rfind_last (c : ascii) (a b : string) :
  contains c b = false ->
  rfind c (a ++ String c b) = Z.of_nat (String.length a).
Proof.
  intros Hb. induction a as [|x a IH].
  - simpl. rewrite (rfind_absent c b Hb). simpl. rewrite Ascii.eqb_refl. reflexivity.
  - simpl append. simpl rfind. rewrite IH.
    destruct (0 <=? Z.of_nat (String.length a))%Z eqn:E;
      [|apply Z.leb_gt in E; lia].
    simpl String.length. lia.
Qed.

Lemma drop_app (a b : string) : drop (String.length a) (a ++ b) = b.
Proof. induction a as [|x a IH]; [destruct b; reflexivity | exact IH]. Qed.

Lemma endswith_split (s : string) (c : ascii) :
  endswith s c = true -> exists s', s = s' ++ String c "".
Proof.
  induction s as [|a s IH]; [discriminate|].
  simpl. destruct s as [|b s].
  - intros E. apply Ascii.eqb_eq in E. subst. exists "". reflexivity.
  - intros E. destruct (IH E) as [s' Hs']. exists (String a s'). simpl.
    rewrite <- Hs'. reflexivity.
Qed.

Lemma append_assoc (a b c : string) : ((a ++ b) ++ c = a ++ (b ++ c))%string.
Proof. induction a as [|x a IH]; simpl; [reflexivity | rewrite IH; reflexivity]. Qed.

Lemma append_length (a b : string) :
  String.length (a ++ b) = String.length a + String.length b.
Proof. induction a as [|x a IH]; simpl; [reflexivity | rewrite IH; reflexivity]. Qed.

Lemma startswith_absent (c : ascii) (s : string) :
  contains c s = false -> startswith s c = false.
Proof.
  destruct s as [|a s]; simpl; [reflexivity|].
  intros Hc. apply orb_false_iff in Hc. apply Hc.
Qed.

(** The base name of a file joined to a directory is the file's name. *)
Lemma basename_join (root name : string) :
  contains sep name = false -> basename (join root name) = name.
Proof.
  intros Hn. unfold join. rewrite (startswith_absent _ _ Hn).
  destruct (String.eqb root "") eqn:Er.
  - apply String.eqb_eq in Er. subst. simpl. unfold basename.
    rewrite (rfind_absent _ _ Hn). reflexivity.
  - simpl orb. destruct (endswith root sep) eqn:Ee.
    + destruct (endswith_split _ _ Ee) as [r ->].
      rewrite append_assoc. simpl append. unfold basename.
      rewrite (rfind_last _ _ _ Hn).
      replace (Z.to_nat (Z.of_nat (String.length r) + 1))
        with (String.length (r ++ String sep "")) by (rewrite append_length; simpl; lia).
      change (String sep name) with (String sep "" ++ name)%string.
      rewrite <- append_assoc. apply drop_app.
    + unfold basename. rewrite (rfind_last _ _ _ Hn).
      replace (Z.to_nat (Z.of_nat (String.length root) + 1))
        with (String.length (root ++ String sep "")) by (rewrite append_length; simpl; lia).
      change (String sep name) with (String sep "" ++ name)%string.
      rewrite <- append_assoc. apply drop_app.
Qed.

Lemma mem_In (x : string) (l : list string) : mem x l = true <-> In x l.
Proof.
  induction l as [|y l IH]; simpl; [split; [discriminate | tauto]|].
  rewrite orb_true_iff, IH, String.eqb_eq. split; intros [?|?]; auto.
Qed.

End Paths.

(** ** The walk *)

Lemma node_induction (P : node -> Prop) :
  P File ->
  (forall listable entries,
     Forall (fun e => P (snd e)) entries -> P (Dir listable entries)) ->
  forall n, P n.
Proof.
  intros HF HD. fix IH 1. intros [|listable entries]; [exact HF|].
  apply HD. induction entries as [|[name child] entries IHe]; constructor.
  - apply IH.
  - exact IHe.
Qed.

Lemma in_filenames (name : string) (entries : list (string * node)) :
  In name (filenames entries) <-> In (name, File) entries.
Proof.
  unfold filenames. rewrite in_map_iff. split.
  - intros [[n c] [<- Hin]]. apply filter_In in Hin. destruct Hin as [Hin Hc].
    destruct c; [exact Hin | discriminate].
  - intros Hin. exists (name, File). split; [reflexivity|].
    apply filter_In. auto.
Qed.

(** Every triple of the walk is a listable directory below the top,
    with the names of its own entries. *)
Lemma walk_dir_at (top : string) (n : node) (root : string) (dirs files : list string) :
  In (root, dirs, files) (walk top n) ->
  exists entries,
    dir_at top n root entries /\ dirs = dirnames entries /\ files = filenames entries.
Proof.
  revert top. induction n as [|listable entries IH] using node_induction; intros top.
  - intros [].
  - destruct listable; [|intros []]. simpl.
    intros [E|Hin].
    + injection E as <- <- <-. exists entries. repeat split. constructor.
    + apply in_flat_map in Hin. destruct Hin as [[name child] [He Hin]].
      destruct (is_dir child); [|destruct Hin].
      rewrite Forall_forall in IH. destruct (IH _ He _ Hin) as [es [Hd [-> ->]]].
      exists es. repeat split. econstructor; eassumption.
Qed.

Lemma dir_at_walk (top : string) (n : node) (root : string) (entries : list (string * node)) :
  dir_at top n root entries ->
  In (root, dirnames entries, filenames entries) (walk top n).
Proof.
  induction 1 as [top entries|top entries name child root es Hin Hd IH].
  - simpl. auto.
  - simpl. right. apply in_flat_map. exists (name, child). split; [exact Hin|].
    destruct child as [|listable ces]; [destruct IH|]. exact IH.
Qed.

(** ** The blur test *)

Lemma flt_irrefl (x : float) : flt x x = false.
Proof.
  unfold flt, SFltb. pose proof (SFcompare_antisym x x) as E.
  destruct (SFcompare x x) as [[| |]|]; simpl in E; congruence.
Qed.

Lemma feq_flt_false (x y : float) : SFeqb x y = true -> flt x y = false.
Proof.
  unfold SFeqb, flt, SFltb. destruct (SFcompare x y) as [[| |]|]; congruence.
Qed.

Section Claims.
Context `{Env}.

(** What [is_blurry] returns is the comparison of the variance it
    returns with the threshold. *)
Lemma is_blurry_classifies (image_path : string) (threshold : float) (verbose : bool)
    (w : world) (b : bool) (v : float) :
  outcome (is_blurry image_path threshold verbose w) = Return (b, v) ->
  b = flt v threshold.
Proof.
  rewrite is_blurry_outcome. destruct (imread image_path); [|discriminate].
  intros [= <- <-]. reflexivity.
Qed.

(** C1. For every record that the evaluation of a directory returns in
    its results, and for every threshold, the field [is_blurry] is the
    comparison [sharpness_variance < threshold]; in particular a
    variance equal to the threshold is classified not blurry. *)
Theorem C1_blurry_iff_below_threshold (root : string) (files file_types : list string)
    (threshold : float) (w : world) (rs : list record) (r : record) :
  outcome (evaluate_directory root files file_types threshold w) = Return rs ->
  In r rs ->
  blurry r = flt (variance r) threshold
  /\ (variance r = threshold \/ SFeqb (variance r) threshold = true -> blurry r = false).
Proof.
  rewrite evaluate_directory_eq. unfold outcome. simpl fst. intros E Hin.
  assert (blurry r = flt (variance r) threshold) as Hb.
  { apply eval_images_Return in E.
    induction E as [|img r' images rs Hr _ IH]; [destruct Hin|].
    destruct Hin as [->|Hin]; [|auto].
    unfold eval_image in Hr. destruct (imread img); [|discriminate].
    injection Hr as <-. reflexivity. }
  split; [exact Hb|].
  rewrite Hb. intros [->|E']; [apply flt_irrefl | apply feq_flt_false, E'].
Qed.

(** C3 (amended). When the root path does not exist, is not a directory
    or cannot be listed, [os.walk] yields nothing: the run ends normally,
    without any error, and writes and prints nothing. *)
Theorem C3_unreadable_root_is_silent (fs : option node) (dir_path : string)
    (file_types : list string) (threshold : float) (sort export_to_csv : bool)
    (w : world) :
  fs = None \/ fs = Some File \/ (exists entries, fs = Some (Dir false entries)) ->
  analyze_images_blurriness fs dir_path file_types threshold sort export_to_csv w
  = (Return tt, w).
Proof.
  intros [->|[->|[entries ->]]]; reflexivity.
Qed.




End Claims.

(** ** Well-formed trees *)

Lemma tree_ok_entries (listable : bool) (entries : list (string * node)) :
  tree_ok (Dir listable entries) = true ->
  forall name child, In (name, child) entries ->
    name_ok name = true /\ tree_ok child = true.
Proof.
  simpl. induction entries as [|[n c] entries IH]; intros Hok name child Hin.
  - destruct Hin.
  - apply andb_true_iff in Hok. destruct Hok as [Hok Hrest].
    apply andb_true_iff in Hok. destruct Hok as [Hok Hc].
    apply andb_true_iff in Hok. destruct Hok as [Hn _].
    destruct Hin as [[= <- <-]|Hin]; [auto|]. apply IH; assumption.
Qed.

Lemma tree_ok_functional (listable : bool) (entries : list (string * node)) :
  tree_ok (Dir listable entries) = true ->
  forall name c1 c2, In (name, c1) entries -> In (name, c2) entries -> c1 = c2.
Proof.
  simpl. induction entries as [|[n c] entries IH]; intros Hok name c1 c2 H1 H2.
  - destruct H1.
  - apply andb_true_iff in Hok. destruct Hok as [Hok Hrest].
    apply andb_true_iff in Hok. destruct Hok as [Hok _].
    apply andb_true_iff in Hok. destruct Hok as [_ Hfresh].
    apply negb_true_iff in Hfresh.
    assert (forall x, In (n, x) entries -> False) as Hno.
    { intros x Hx. assert (PyStr.mem n (map fst entries) = true) as Hm.
      { apply mem_In. apply in_map_iff. exists (n, x). auto. }
      congruence. }
    destruct H1 as [E1|H1], H2 as [E2|H2].
    + congruence.
    + injection E1 as -> _. destruct (Hno _ H2).
    + injection E2 as -> _. destruct (Hno _ H1).
    + eapply IH; eassumption.
Qed.

Lemma dir_at_tree_ok (top : string) (n : node) (root : string)
    (entries : list (string * node)) :
  dir_at top n root entries -> tree_ok n = true -> tree_ok (Dir true entries) = true.
Proof.
  induction 1 as [top entries|top entries name child root es Hin Hd IH]; intros Hok.
  - exact Hok.
  - apply IH. eapply tree_ok_entries; eassumption.
Qed.

Section JoinFacts.
Import PyStr Path.
Local Open Scope string_scope.

Lemma name_ok_spec (name : string) :
  name_ok name = true -> name <> "" /\ contains sep name = false.
Proof.
  unfold name_ok. intros Hn. apply andb_true_iff in Hn. destruct Hn as [Hn Hs].
  apply negb_true_iff in Hn, Hs. split; [|exact Hs].
  intros ->. discriminate.
Qed.

Lemma append_inj_l (a b c : string) : a ++ b = a ++ c -> b = c.
Proof. induction a as [|x a IH]; simpl; [auto|]. intros [= E]. auto. Qed.

(** Joining to one directory keeps relative names apart. *)
Lemma join_inj (root a b : string) :
  startswith a sep = false -> startswith b sep = false ->
  join root a = join root b -> a = b.
Proof.
  unfold join. intros -> ->.
  destruct (String.eqb root "" || endswith root sep)%bool; intros E.
  - exact (append_inj_l _ _ _ E).
  - apply append_inj_l in E. injection E. auto.
Qed.

End JoinFacts.

(** ** The selection, the sort and the rows of a report *)

Section Reports.
Context `{Env}.

Lemma in_images_of (root : string) (files file_types : list string) (image_path : string) :
  In image_path (images_of root files file_types) <->
  exists name, In name files /\ image_path = Path.join root name
               /\ In (snd (Path.splitext name)) file_types.
Proof.
  unfold images_of. rewrite in_map_iff. split.
  - intros [name [<- Hin]]. apply filter_In in Hin. destruct Hin as [Hin Hm].
    apply mem_In in Hm. exists name. auto.
  - intros [name [Hin [-> Hm]]]. exists name. split; [reflexivity|].
    apply mem_In in Hm. apply filter_In. auto.
Qed.

(** C7 (amended). In every directory the walk visits, the files selected
    for evaluation are exactly the entries directly in that directory
    that are not directories (regular files or not: [os.walk] lists
    them all and the script makes no [isfile] test) whose extension,
    compared case-sensitively, is one of [.jpg], [.jpeg], [.png],
    [.tiff], [.NEF]; an entry named [photo.JPG] or [photo.nef] is never
    selected. *)
Theorem C7_selection_by_extension (n : node) (dir_path root : string)
    (dirs files : list string) :
  tree_ok n = true ->
  In (root, dirs, files) (os_walk dir_path (Some n)) ->
  exists entries,
    dir_at dir_path n root entries
    /\ (forall image_path,
          In image_path (images_of root files [".jpg"; ".jpeg"; ".png"; ".tiff"; ".NEF"])
          <-> exists name,
                In (name, File) entries
                /\ image_path = Path.join root name
                /\ In (snd (Path.splitext name))
                      [".jpg"; ".jpeg"; ".png"; ".tiff"; ".NEF"])
    /\ ~ In (Path.join root "photo.JPG")
            (images_of root files [".jpg"; ".jpeg"; ".png"; ".tiff"; ".NEF"])
    /\ ~ In (Path.join root "photo.nef")
            (images_of root files [".jpg"; ".jpeg"; ".png"; ".tiff"; ".NEF"]).
Proof.
  intros Hok Hin. simpl in Hin.
  destruct (walk_dir_at _ _ _ _ _ Hin) as [entries [Hd [-> ->]]].
  exists entries. split; [exact Hd|].
  assert (forall image_path,
            In image_path (images_of root (filenames entries)
                             [".jpg"; ".jpeg"; ".png"; ".tiff"; ".NEF"])
            <-> exists name,
                  In (name, File) entries
                  /\ image_path = Path.join root name
                  /\ In (snd (Path.splitext name))
                        [".jpg"; ".jpeg"; ".png"; ".tiff"; ".NEF"]) as Hsel.
  { intros p. rewrite in_images_of. split; intros [name [Hn Hrest]]; exists name;
      (split; [apply in_filenames, Hn | exact Hrest]). }
  split; [exact Hsel|].
  pose proof (dir_at_tree_ok _ _ _ _ Hd Hok) as Hes.
  assert (forall other, PyStr.startswith other Path.sep = false ->
            ~ In (snd (Path.splitext other)) [".jpg"; ".jpeg"; ".png"; ".tiff"; ".NEF"] ->
            ~ In (Path.join root other)
                 (images_of root (filenames entries)
                    [".jpg"; ".jpeg"; ".png"; ".tiff"; ".NEF"])) as Hnot.
  { intros other Hs Hext Hp. apply Hsel in Hp. destruct Hp as [name [Hn [Hj Hm]]].
    destruct (tree_ok_entries _ _ Hes _ _ Hn) as [Hname _].
    apply name_ok_spec in Hname. destruct Hname as [_ Hsep].
    apply join_inj in Hj; [subst; auto | exact Hs | apply startswith_absent, Hsep]. }
  split; apply Hnot; try reflexivity; simpl; intuition discriminate.
Qed.

(** C4. When sorting is enabled, the rows of every report are the
    results of its directory, stable-sorted by ascending variance: the
    rows are a permutation of the results in discovery order, the
    variance never decreases from a row to the next one, and the
    records of equal variance keep their discovery order. (cv2 returns
    no NaN as a variance.) *)
Theorem C4_rows_stable_sorted (fs : option node) (dir_path : string)
    (file_types : list string) (threshold : float) (export_to_csv : bool)
    (file : string * list (list value)) :
  (forall img, is_nan (Laplacian_var img) = false) ->
  In file (written (analyze_images_blurriness fs dir_path file_types threshold true
                      export_to_csv empty_world)) ->
  exists root dirs files results rows,
    In (root, dirs, files) (os_walk dir_path fs)
    /\ outcome (evaluate_directory root files file_types threshold empty_world)
       = Return results
    /\ map full_path results = images_of root files file_types
    /\ snd file = headers :: map row_of_record rows
    /\ Permutation results rows
    /\ ascending rows
    /\ (forall v, with_variance v rows = with_variance v results).
Proof.
  intros Hnan Hin. apply run_written in Hin.
  destruct Hin as [[[root dirs] files] [Hw [rs [Hrs [Hne [Hp Hrows]]]]]].
  exists root, dirs, files, rs, (list_sort variance rs).
  split; [exact Hw|]. split; [exact Hrs|].
  unfold outcome in Hrs. rewrite evaluate_directory_eq in Hrs. simpl in Hrs.
  split; [eapply eval_images_paths, Hrs|].
  split; [exact Hrows|].
  split; [apply Permutation_sym, list_sort_perm|].
  split; [|intros v; apply list_sort_stable].
  assert (Forall (fun r => is_nan (variance r) = false) rs) as Hall.
  { apply eval_images_Return in Hrs. clear -Hrs Hnan.
    induction Hrs as [|img r images rs Hr _ IH]; constructor; [|exact IH].
    unfold eval_image in Hr. destruct (imread img); [|discriminate].
    injection Hr as <-. apply Hnan. }
  intros i r1 r2 H1 H2.
  exact (sorted_adjacent variance _ (list_sort_sorted variance rs Hall) i r1 r2 H1 H2).
Qed.

(** C10. In every report, each row describes a file directly inside the
    directory the report is written into: its full path is the join of
    that directory and the name of one of its files, and its file name
    is the base name of its full path. *)
Theorem C10_rows_colocated_with_report (n : node) (dir_path : string)
    (file_types : list string) (threshold : float) (sort export_to_csv : bool)
    (file : string * list (list value)) (row : list value) :
  tree_ok n = true ->
  In file (written (analyze_images_blurriness (Some n) dir_path file_types threshold
                      sort export_to_csv empty_world)) ->
  In row (tl (snd file)) ->
  exists root entries name b v,
    dir_at dir_path n root entries
    /\ fst file = Path.join root default_filename
    /\ In (name, File) entries
    /\ row = [VStr (Path.join root name); VStr name; VBool b; VFloat v]
    /\ Path.basename (Path.join root name) = name.
Proof.
  intros Hok Hin Hrow. apply run_written in Hin.
  destruct Hin as [[[root dirs] files] [Hw [rs [Hrs [Hne [Hp Hrows]]]]]].
  simpl in Hw. destruct (walk_dir_at _ _ _ _ _ Hw) as [entries [Hd [-> ->]]].
  rewrite Hrows in Hrow. simpl in Hrow. apply in_map_iff in Hrow.
  destruct Hrow as [r [<- Hr]].
  assert (In r rs) as Hr'.
  { destruct sort; [|exact Hr].
    eapply Permutation_in; [apply list_sort_perm | exact Hr]. }
  unfold outcome in Hrs. rewrite evaluate_directory_eq in Hrs. simpl in Hrs.
  apply eval_images_Return in Hrs.
  assert (exists img, In img (images_of root (filenames entries) file_types)
                      /\ eval_image threshold img = Return r) as [img [Himg Hev]].
  { clear -Hrs Hr'. induction Hrs as [|img r' images rs' Hr0 _ IH]; [destruct Hr'|].
    destruct Hr' as [->|Hr']; [exists img; simpl; auto|].
    destruct (IH Hr') as [i [? ?]]. exists i. simpl. auto. }
  apply in_images_of in Himg. destruct Himg as [name [Hname [-> _]]].
  apply in_filenames in Hname.
  pose proof (dir_at_tree_ok _ _ _ _ Hd Hok) as Hes.
  destruct (tree_ok_entries _ _ Hes _ _ Hname) as [Hnok _].
  apply name_ok_spec in Hnok. destruct Hnok as [_ Hsep].
  unfold eval_image in Hev. destruct (imread (Path.join root name)) as [i|];
    [|discriminate].
  injection Hev as <-.
  exists root, entries, name, (flt (Laplacian_var i) threshold), (Laplacian_var i).
  repeat split; try assumption.
  - unfold row_of_record. simpl. rewrite (basename_join root name Hsep). reflexivity.
  - apply basename_join, Hsep.
Qed.

End Reports.

(** ** One report path per directory *)

Section ReportPaths.
Import PyStr Path.
Local Open Scope string_scope.

Lemma append_nil_r (a : string) : a ++ "" = a.
Proof. induction a as [|x a IH]; simpl; [reflexivity | rewrite IH; reflexivity]. Qed.

Lemma append_inj_r (a b c : string) : a ++ c = b ++ c -> a = b.
Proof.
  revert b. induction a as [|x a IH]; intros [|y b] E; simpl in E.
  - reflexivity.
  - apply (f_equal String.length) in E. simpl in E. rewrite append_length in E. lia.
  - apply (f_equal String.length) in E. simpl in E. rewrite append_length in E. lia.
  - injection E as -> E. f_equal. apply IH, E.
Qed.

(** A path and the prefix [join] puts before a relative name. *)
Lemma join_prefix (top name : string) :
  startswith name sep = false -> join top name = join top "" ++ name.
Proof.
  unfold join. intros ->. simpl startswith.
  destruct (String.eqb top "" || endswith top sep)%bool.
  - rewrite append_nil_r. reflexivity.
  - rewrite append_assoc. reflexivity.
Qed.

Lemma join_prefix_length (top : string) :
  String.length top <= String.length (join top "")
  /\ String.length (join top "") <= S (String.length top).
Proof.
  unfold join. simpl startswith.
  destruct (String.eqb top "" || endswith top sep)%bool;
    rewrite append_length; simpl; lia.
Qed.

Lemma endswith_append (a b : string) (c : ascii) :
  b <> "" -> endswith (a ++ b) c = endswith b c.
Proof.
  intros Hb. induction a as [|x a IH]; [reflexivity|].
  simpl append. simpl endswith. rewrite IH.
  destruct (a ++ b) eqn:E; [|reflexivity].
  destruct a; simpl in E; [congruence | discriminate].
Qed.

Lemma endswith_absent (c : ascii) (s : string) :
  contains c s = false -> endswith s c = false.
Proof.
  induction s as [|a s IH]; [reflexivity|].
  simpl. intros Hc. apply orb_false_iff in Hc. destruct Hc as [Ha Hs].
  destruct s; [exact Ha | apply IH, Hs].
Qed.

Lemma join_plain (r name : string) :
  plain r -> startswith name sep = false -> join r name = r ++ String sep name.
Proof.
  intros [Hr He] Hs. unfold join. rewrite Hs, He.
  destruct (String.eqb r "") eqn:E; [apply String.eqb_eq in E; contradiction|].
  reflexivity.
Qed.

Lemma join_name_plain (top name : string) :
  name_ok name = true ->
  plain (join top name) /\ String.length top < String.length (join top name).
Proof.
  intros Hn. apply name_ok_spec in Hn. destruct Hn as [Hne Hsep].
  rewrite (join_prefix top name (startswith_absent _ _ Hsep)).
  split; [split|].
  - destruct name; [congruence|]. destruct (join top ""); discriminate.
  - rewrite endswith_append by exact Hne. apply endswith_absent, Hsep.
  - rewrite append_length. pose proof (join_prefix_length top).
    destruct name; [congruence|]. simpl. lia.
Qed.

(** Below the top, the directories of the walk have plain paths, longer
    than the top's. *)
Lemma dir_at_plain (top : string) (n : node) (root : string)
    (entries : list (string * node)) :
  dir_at top n root entries -> tree_ok n = true ->
  root = top \/ (plain root /\ String.length top < String.length root).
Proof.
  induction 1 as [top entries|top entries name child root es Hin Hd IH]; intros Hok.
  - auto.
  - right. destruct (tree_ok_entries _ _ Hok _ _ Hin) as [Hn Hc].
    destruct (join_name_plain top name Hn) as [Hp Hl].
    destruct (IH Hc) as [->|[Hp' Hl']]; [auto|]. split; [exact Hp'|lia].
Qed.

(** The path of a directory of the walk starts with the path of each
    directory above it, followed by nothing or by a separator. *)
Lemma dir_at_extends (top : string) (n : node) (root : string)
    (entries : list (string * node)) :
  dir_at top n root entries -> tree_ok n = true -> plain top ->
  exists rest, root = top ++ rest /\ (rest = "" \/ startswith rest sep = true).
Proof.
  induction 1 as [top entries|top entries name child root es Hin Hd IH];
    intros Hok Hp.
  - exists "". rewrite append_nil_r. auto.
  - destruct (tree_ok_entries _ _ Hok _ _ Hin) as [Hn Hc].
    destruct (join_name_plain top name Hn) as [Hp' _].
    destruct (IH Hc Hp') as [rest [-> _]].
    apply name_ok_spec in Hn. destruct Hn as [_ Hsep].
    rewrite (join_plain top name Hp (startswith_absent _ _ Hsep)).
    exists (String sep name ++ rest). rewrite append_assoc. split; [reflexivity|].
    right. reflexivity.
Qed.

(** A name is told apart from what follows it in a path. *)
Lemma name_split (x1 x2 rest1 rest2 : string) :
  contains sep x1 = false -> contains sep x2 = false ->
  rest1 = "" \/ startswith rest1 sep = true ->
  rest2 = "" \/ startswith rest2 sep = true ->
  x1 ++ rest1 = x2 ++ rest2 -> x1 = x2.
Proof.
  revert x2. induction x1 as [|a x1 IH]; intros [|b x2] H1 H2 R1 R2 E; simpl in *.
  - reflexivity.
  - apply orb_false_iff in H2. destruct H2 as [Hb _].
    destruct R1 as [->|R1]; [discriminate|].
    subst rest1. simpl in R1. congruence.
  - apply orb_false_iff in H1. destruct H1 as [Ha _].
    destruct R2 as [->|R2]; [discriminate|].
    subst rest2. simpl in R2. congruence.
  - apply orb_false_iff in H1, H2. destruct H1 as [_ H1], H2 as [_ H2].
    injection E as -> E. f_equal. eapply IH; eassumption.
Qed.

(** A path of the walk names one directory only. *)
Lemma dir_at_unique (top : string) (n : node) (root : string)
    (es1 es2 : list (string * node)) :
  tree_ok n = true -> dir_at top n root es1 -> dir_at top n root es2 -> es1 = es2.
Proof.
  intros Hok H1. revert es2 Hok.
  induction H1 as [top entries|top entries name child root es Hin Hd IH];
    intros es2 Hok H2.
  - inversion H2 as [|? ? name child ? ? Hin Hd]; subst; [reflexivity|].
    destruct (tree_ok_entries _ _ Hok _ _ Hin) as [Hn Hc].
    destruct (join_name_plain top name Hn) as [_ Hl].
    destruct (dir_at_plain _ _ _ _ Hd Hc) as [E|[_ Hl']]; [rewrite <- E in Hl|]; lia.
  - destruct (tree_ok_entries _ _ Hok _ _ Hin) as [Hn Hc].
    destruct (join_name_plain top name Hn) as [Hp Hl].
    inversion H2 as [|? ? name2 child2 ? ? Hin2 Hd2]; subst.
    + destruct (dir_at_plain _ _ _ _ Hd Hc) as [E|[_ Hl']]; [rewrite <- E in Hl|]; lia.
    + destruct (tree_ok_entries _ _ Hok _ _ Hin2) as [Hn2 Hc2].
      destruct (join_name_plain top name2 Hn2) as [Hp2 _].
      destruct (dir_at_extends _ _ _ _ Hd Hc Hp) as [rest1 [E1 R1]].
      destruct (dir_at_extends _ _ _ _ Hd2 Hc2 Hp2) as [rest2 [E2 R2]].
      pose proof (name_ok_spec _ Hn) as [_ Hs1].
      pose proof (name_ok_spec _ Hn2) as [_ Hs2].
      rewrite E1 in E2.
      rewrite (join_prefix top name (startswith_absent _ _ Hs1)) in E2.
      rewrite (join_prefix top name2 (startswith_absent _ _ Hs2)) in E2.
      rewrite !append_assoc in E2. apply append_inj_l in E2.
      apply name_split in E2; trivial. subst name2.
      rewrite (tree_ok_functional _ _ Hok _ _ _ Hin2 Hin) in Hd2.
      apply IH; assumption.
Qed.

(** Two directories of the walk do not share the path of their report. *)
Lemma report_path_inj (top : string) (n : node) (r1 r2 : string)
    (es1 es2 : list (string * node)) :
  tree_ok n = true -> dir_at top n r1 es1 -> dir_at top n r2 es2 ->
  join r1 default_filename = join r2 default_filename -> r1 = r2.
Proof.
  intros Hok H1 H2 E.
  rewrite (join_prefix r1 default_filename), (join_prefix r2 default_filename) in E
    by reflexivity.
  apply append_inj_r in E.
  assert (forall r, plain r -> join r "" = r ++ String sep "") as Hplain.
  { intros r Hr. apply join_plain; [exact Hr | reflexivity]. }
  destruct (dir_at_plain _ _ _ _ H1 Hok) as [->|[P1 L1]],
           (dir_at_plain _ _ _ _ H2 Hok) as [->|[P2 L2]].
  - reflexivity.
  - rewrite (Hplain _ P2) in E. apply (f_equal String.length) in E.
    rewrite append_length in E. simpl in E.
    pose proof (join_prefix_length top). lia.
  - rewrite (Hplain _ P1) in E. apply (f_equal String.length) in E.
    rewrite append_length in E. simpl in E.
    pose proof (join_prefix_length top). lia.
  - rewrite (Hplain _ P1), (Hplain _ P2) in E. apply append_inj_r in E. exact E.
Qed.

End ReportPaths.

(** ** Reports and directories *)

Section ReportClaims.
Context `{Env}.

(** C5. A directory of the walk whose results list is empty has no
    matching image, and no file of the run is written at the path of
    its report: no CSV file is written into that directory. *)
Theorem C5_no_report_for_empty_results (n : node) (dir_path : string)
    (file_types : list string) (threshold : float) (sort export_to_csv : bool)
    (root : string) (dirs files : list string) :
  tree_ok n = true ->
  In (root, dirs, files) (os_walk dir_path (Some n)) ->
  outcome (evaluate_directory root files file_types threshold empty_world) = Return [] ->
  images_of root files file_types = []
  /\ forall file,
       In file (written (analyze_images_blurriness (Some n) dir_path file_types
                           threshold sort export_to_csv empty_world)) ->
       fst file <> Path.join root default_filename.
Proof.
  intros Hok Hw Hempty.
  unfold outcome in Hempty. rewrite evaluate_directory_eq in Hempty. simpl in Hempty.
  split; [rewrite <- (eval_images_paths _ _ _ Hempty); reflexivity|].
  intros file Hin Hpath. apply run_written in Hin.
  destruct Hin as [[[root' dirs'] files'] [Hw' [rs [Hrs [Hne [Hp _]]]]]].
  simpl in Hw, Hw'.
  destruct (walk_dir_at _ _ _ _ _ Hw) as [es [Hd [-> ->]]].
  destruct (walk_dir_at _ _ _ _ _ Hw') as [es' [Hd' [-> ->]]].
  rewrite Hpath in Hp.
  apply (report_path_inj _ _ _ _ _ _ Hok Hd Hd') in Hp. subst root'.
  rewrite (dir_at_unique _ _ _ _ _ Hok Hd' Hd) in Hrs.
  unfold outcome in Hrs. rewrite evaluate_directory_eq in Hrs. simpl in Hrs.
  congruence.
Qed.

End ReportClaims.

(** ** The text of a report *)

Section CsvText.
Import PyStr.
Local Open Scope string_scope.





End CsvText.

Section ReportContents.
Context `{Env}.
Local Open Scope string_scope.





End ReportContents.

(** ** The worker pool *)

Module PoolFacts.
Import Pool.

Lemma in_update (ts1 ts2 : list task) (t t0 : task) (s : status) :
  In t0 (ts1 ++ set_status t s :: ts2) ->
  t0 = set_status t s \/ In t0 (ts1 ++ t :: ts2).
Proof.
  rewrite !in_app_iff. simpl. intros [?|[?|?]]; auto.
Qed.

Lemma submitted_update (d : nat) (ts1 ts2 : list task) (t : task) (s : status) :
  map t_img (filter (of_dir d) (ts1 ++ set_status t s :: ts2))
  = map t_img (filter (of_dir d) (ts1 ++ t :: ts2)).
Proof.
  rewrite !filter_app, !map_app. f_equal. simpl.
  replace (of_dir d (set_status t s)) with (of_dir d t) by reflexivity.
  destruct (of_dir d t); reflexivity.
Qed.

Lemma filter_none (d : nat) (ts : list task) :
  (forall t, In t ts -> t_dir t < d) -> filter (of_dir d) ts = [].
Proof.
  induction ts as [|t ts IH]; intros Hlt; [reflexivity|].
  simpl. unfold of_dir at 1.
  destruct (Nat.eqb_spec (t_dir t) d) as [E|_].
  - specialize (Hlt t (or_introl eq_refl)). lia.
  - apply IH. intros t' Ht'. apply Hlt. simpl. auto.
Qed.

(** A worker that takes or finishes a call keeps the invariant. *)
Lemma inv_worker (dirs : list (list string)) (p : pc) (ts1 ts2 : list task)
    (t : task) (s : status) (rp : list nat) :
  t_status t <> Done ->
  inv dirs {| at_pc := p; tasks := ts1 ++ t :: ts2; reports := rp |} ->
  inv dirs {| at_pc := p; tasks := ts1 ++ set_status t s :: ts2; reports := rp |}.
Proof.
  intros Hnd.
  assert (In t (ts1 ++ t :: ts2)) as Ht by (apply in_app_iff; simpl; auto).
  assert (forall d, (forall t0, In t0 (ts1 ++ t :: ts2) -> t_dir t0 <> d ->
                                t_status t0 = Done) ->
                    forall t0, In t0 (ts1 ++ set_status t s :: ts2) -> t_dir t0 <> d ->
                               t_status t0 = Done) as Hothers.
  { intros d Hd t0 Hin Hdir. apply in_update in Hin. destruct Hin as [->|Hin].
    - destruct Hnd. apply Hd; assumption.
    - apply Hd; assumption. }
  assert (forall d, (forall t0, In t0 (ts1 ++ t :: ts2) -> t_dir t0 <= d) ->
                    forall t0, In t0 (ts1 ++ set_status t s :: ts2) -> t_dir t0 <= d)
    as Hupto.
  { intros d Hd t0 Hin. apply in_update in Hin. destruct Hin as [->|Hin].
    - apply (Hd t Ht).
    - apply Hd, Hin. }
  unfold inv. destruct p as [d|d todo|d todo|d raised|d k|raised]; simpl.
  - intros [Hall _]. destruct Hnd. apply Hall, Ht.
  - intros [Ho [Hu [He Hs]]]. rewrite submitted_update.
    split; [apply Hothers, Ho|]. split; [apply Hupto, Hu|]. auto.
  - intros [Ho [Hu [He Hs]]]. rewrite submitted_update.
    split; [apply Hothers, Ho|]. split; [apply Hupto, Hu|]. auto.
  - intros [Ho [Hu [He Hs]]]. rewrite submitted_update.
    split; [apply Hothers, Ho|]. split; [apply Hupto, Hu|]. auto.
  - intros [Hall _]. destruct Hnd. apply Hall, Ht.
  - intros Hall. destruct Hnd. apply Hall, Ht.
Qed.

Lemma inv_step (dirs : list (list string)) (fails hangs : string -> bool)
    (unwritable : nat -> bool) (export : bool) (s s' : state) :
  step dirs fails hangs unwritable export s s' -> inv dirs s -> inv dirs s'.
Proof.
  intros Hstep.
  destruct Hstep as [d imgs ts rp Hd|d ts rp Hd|d img todo ts rp|d imgs ts rp Hd
                    |d img todo ts rp Hin Hf|d img todo ts rp Hin Hf|d ts rp
                    |d raised imgs ts rp Hdone Hd|d n ts rp Hopen|d n ts rp Hopen
                    |p ts1 t ts2 rp Hq Hrun|p ts1 t ts2 rp Hr Hret].
  - unfold inv. simpl. intros [Hall [Hlt He]].
    repeat split; auto.
    + intros t Ht. apply Nat.lt_le_incl, Hlt, Ht.
    + rewrite (filter_none d ts Hlt). exact Hd.
  - unfold inv. simpl. intros [Hall _]. exact Hall.
  - unfold inv. simpl. intros [Ho [Hu [He Hs]]].
    repeat split; auto.
    + intros t Ht Hdir. apply in_app_iff in Ht. destruct Ht as [Ht|[<-|[]]]; auto.
      simpl in Hdir. congruence.
    + intros t Ht. apply in_app_iff in Ht. destruct Ht as [Ht|[<-|[]]]; auto.
    + rewrite filter_app, map_app. simpl. unfold of_dir at 2. simpl.
      rewrite Nat.eqb_refl. simpl. rewrite <- app_assoc. exact Hs.
  - unfold inv. simpl. intros [Ho [Hu [He Hs]]].
    rewrite app_nil_r in Hs. auto.
  - unfold inv. simpl. auto.
  - unfold inv. simpl. auto.
  - unfold inv. simpl. auto.
  - unfold inv. simpl. intros [Ho [Hu [He Hs]]].
    assert (forall t, In t ts -> t_status t = Done) as Hall.
    { intros t Ht. destruct (Nat.eq_dec (t_dir t) d) as [E|E]; [|auto].
      rewrite forallb_forall in Hdone.
      assert (is_done t = true) as Hdt.
      { apply Hdone. apply filter_In. split; [exact Ht|].
        unfold of_dir. apply Nat.eqb_eq, E. }
      unfold is_done in Hdt. destruct (t_status t); congruence. }
    destruct raised; simpl; auto.
  - unfold inv. simpl. intros [Hall [Hu [He Hs]]].
    repeat split; auto.
    + intros t Ht. apply Nat.lt_succ_r, Hu, Ht.
    + intros r Hr.
      destruct (export && negb (Nat.eqb n 0))%bool.
      * apply in_app_iff in Hr. destruct Hr as [Hr|[<-|[]]]; [|lia].
        apply Nat.lt_lt_succ_r, He, Hr.
      * apply Nat.lt_lt_succ_r, He, Hr.
  - unfold inv. simpl. intros [Hall _]. exact Hall.
  - apply inv_worker. rewrite Hq. discriminate.
  - apply inv_worker. rewrite Hr. discriminate.
Qed.

Lemma reachable_inv (dirs : list (list string)) (fails hangs : string -> bool)
    (unwritable : nat -> bool) (export : bool) (s : state) :
  reachable dirs fails hangs unwritable export s -> inv dirs s.
Proof.
  induction 1 as [|s s' _ IH Hstep].
  - unfold inv, initial. simpl. repeat split; intros ? [].
  - eapply inv_step; eassumption.
Qed.

End PoolFacts.

Section PoolClaims.
Context `{Env}.
Import Pool.

(** C9. In every state a run reaches: when the report writer of a
    directory is about to run, every selected image of that directory
    was submitted and all these evaluations are done (a full join);
    the evaluations of a directory whose report is written are done;
    and a call that is queued or running belongs to the directory the
    main thread is in, so the evaluations of two directories never
    overlap. This holds whether or not calls fail or hang and reports
    can be opened. *)
Theorem C9_join_barrier_sequential_directories (fs : option node) (dir_path : string)
    (file_types : list string) (hangs : string -> bool) (export_to_csv : bool)
    (s : state) :
  reachable (pool_dirs fs dir_path file_types) pool_fails hangs
    (pool_unwritable fs dir_path) export_to_csv s ->
  (forall d k, at_pc s = Reporting d k ->
     nth_error (pool_dirs fs dir_path file_types) d
     = Some (map t_img (filter (of_dir d) (tasks s)))
     /\ forall t, In t (tasks s) -> t_dir t = d -> t_status t = Done)
  /\ (forall d t, In d (reports s) -> In t (tasks s) -> t_dir t = d ->
                  t_status t = Done)
  /\ (forall t, In t (tasks s) -> t_status t <> Done ->
                current (at_pc s) = Some (t_dir t))
  /\ (forall t1 t2, In t1 (tasks s) -> In t2 (tasks s) ->
                    t_status t1 <> Done -> t_status t2 <> Done ->
                    t_dir t1 = t_dir t2).
Proof.
  intros Hreach. apply PoolFacts.reachable_inv in Hreach.
  assert (forall t, In t (tasks s) -> t_status t <> Done ->
                    current (at_pc s) = Some (t_dir t)) as Hcur.
  { intros t Ht Hnd. unfold inv in Hreach.
    destruct (at_pc s) as [d|d todo|d todo|d raised|d k|raised]; simpl in *.
    - destruct Hnd. apply Hreach, Ht.
    - destruct Hreach as [Ho _]. destruct (Nat.eq_dec (t_dir t) d) as [->|E];
        [reflexivity | destruct Hnd; auto].
    - destruct Hreach as [Ho _]. destruct (Nat.eq_dec (t_dir t) d) as [->|E];
        [reflexivity | destruct Hnd; auto].
    - destruct Hreach as [Ho _]. destruct (Nat.eq_dec (t_dir t) d) as [->|E];
        [reflexivity | destruct Hnd; auto].
    - destruct Hnd. apply Hreach, Ht.
    - destruct Hnd. apply Hreach, Ht. }
  split; [|split; [|split]].
  - intros d k Hpc. unfold inv in Hreach. rewrite Hpc in Hreach.
    destruct Hreach as [Hall [_ [_ Hs]]]. split; [exact Hs|]. auto.
  - intros d t Hd Ht Hdir.
    destruct (t_status t) eqn:E; [| |reflexivity].
    + assert (current (at_pc s) = Some (t_dir t)) as Hc
        by (apply Hcur; [exact Ht | rewrite E; discriminate]).
      unfold inv in Hreach.
      destruct (at_pc s) as [d'|d' todo|d' todo|d' raised|d' k|raised];
        simpl in *; try discriminate;
        injection Hc as ->; destruct Hreach as [_ [_ [He _]]];
        specialize (He _ Hd); lia.
    + assert (current (at_pc s) = Some (t_dir t)) as Hc
        by (apply Hcur; [exact Ht | rewrite E; discriminate]).
      unfold inv in Hreach.
      destruct (at_pc s) as [d'|d' todo|d' todo|d' raised|d' k|raised];
        simpl in *; try discriminate;
        injection Hc as ->; destruct Hreach as [_ [_ [He _]]];
        specialize (He _ Hd); lia.
  - exact Hcur.
  - intros t1 t2 H1 H2 N1 N2.
    pose proof (Hcur t1 H1 N1) as C1. pose proof (Hcur t2 H2 N2) as C2. congruence.
Qed.

End PoolClaims.

(** * The claims on the sample *)

Section SampleRuns.
Import Sample.

(** C1 on the image of [d/edge], whose variance is the threshold. *)
Lemma C1_witness :
  outcome (@evaluate_directory env "d/edge" ["e.tiff"] default_file_types
             default_threshold empty_world) = Return [record_edge]
  /\ In record_edge [record_edge]
  /\ blurry record_edge = flt (variance record_edge) default_threshold
  /\ (variance record_edge = default_threshold
      \/ SFeqb (variance record_edge) default_threshold = true ->
      blurry record_edge = false).
Proof.
  assert (outcome (@evaluate_directory env "d/edge" ["e.tiff"] default_file_types
                     default_threshold empty_world) = Return [record_edge]) as H1
    by (vm_compute; reflexivity).
  assert (In record_edge [record_edge]) as H2 by (simpl; auto).
  split; [exact H1|]. split; [exact H2|].
  exact (@C1_blurry_iff_below_threshold env "d/edge" ["e.tiff"] default_file_types
           default_threshold empty_world [record_edge] record_edge H1 H2).
Defined.

(** C3, the claim as stated, fails: on a root path that does not exist
    the script ends normally, it raises nothing. *)
Lemma C3_counterexample :
  @main env None "missing" empty_world
  = (Return tt,
     {| written_files := [];
        printed_lines := ["Appuyez sur Entrée pour fermer..."%string] |})
  /\ ~ exists e, outcome (@main env None "missing" empty_world) = Raise e.
Proof.
  split; [reflexivity|]. intros [e He]. discriminate.
Qed.

(** C3 (amended) on a root path that does not exist. *)
Lemma C3_witness :
  (@None node = None \/ @None node = Some File
   \/ exists entries, @None node = Some (Dir false entries))
  /\ @analyze_images_blurriness env None "missing" default_file_types
       default_threshold true true empty_world = (Return tt, empty_world).
Proof.
  assert (@None node = None \/ @None node = Some File
          \/ exists entries, @None node = Some (Dir false entries)) as H1
    by (left; reflexivity).
  split; [exact H1|].
  exact (@C3_unreadable_root_is_silent env None "missing" default_file_types
           default_threshold true true empty_world H1).
Defined.



(** C4 on the report of [d] in the nested sample, discovered as b.png
    then a.jpg. *)
Lemma C4_witness :
  (forall img : @image env, is_nan (@Laplacian_var env img) = false)
  /\ In report_d (written (run (Some nested)))
  /\ exists root dirs files results rows,
       In (root, dirs, files) (os_walk "d" (Some nested))
       /\ outcome (@evaluate_directory env root files default_file_types
                     default_threshold empty_world) = Return results
       /\ map full_path results = images_of root files default_file_types
       /\ snd report_d = headers :: map row_of_record rows
       /\ Permutation results rows
       /\ ascending rows
       /\ (forall v, with_variance v rows = with_variance v results).
Proof.
  assert (forall img : @image env, is_nan (@Laplacian_var env img) = false) as H1
    by (intros []; reflexivity).
  assert (In report_d (written (run (Some nested)))) as H2
    by (vm_compute; auto).
  split; [exact H1|]. split; [exact H2|].
  exact (@C4_rows_stable_sorted env (Some nested) "d" default_file_types
           default_threshold true report_d H1 H2).
Defined.

(** C5 on [d/empty], whose only file is photo.JPG. *)
Lemma C5_witness :
  tree_ok nested = true
  /\ In ("d/empty"%string, @nil string, ["photo.JPG"%string])
        (os_walk "d" (Some nested))
  /\ outcome (@evaluate_directory env "d/empty" ["photo.JPG"] default_file_types
                default_threshold empty_world) = Return []
  /\ images_of "d/empty" ["photo.JPG"] default_file_types = []
  /\ forall file, In file (written (run (Some nested))) ->
                  fst file <> Path.join "d/empty" default_filename.
Proof.
  assert (tree_ok nested = true) as H1 by reflexivity.
  assert (In ("d/empty"%string, @nil string, ["photo.JPG"%string])
             (os_walk "d" (Some nested))) as H2 by (vm_compute; auto).
  assert (outcome (@evaluate_directory env "d/empty" ["photo.JPG"] default_file_types
                     default_threshold empty_world) = Return []) as H3
    by reflexivity.
  split; [exact H1|]. split; [exact H2|]. split; [exact H3|].
  exact (@C5_no_report_for_empty_results env nested "d" default_file_types
           default_threshold true true "d/empty" [] ["photo.JPG"] H1 H2 H3).
Defined.

(** C7, the claim as stated, fails: [lost.png], a symbolic link that
    leads nowhere, is no regular file, yet it is selected (and its
    evaluation ends the run); the selected files are not exactly the
    regular files with a matching extension. *)
Lemma C7_counterexample :
  In ("d/sub"%string, @nil string, ["lost.png"%string])
     (os_walk "d" (Some corrupt_below))
  /\ dir_at "d" corrupt_below "d/sub" [("lost.png"%string, File)]
  /\ @isfile env "d/sub/lost.png" = false
  /\ In "d/sub/lost.png"%string
        (images_of "d/sub" ["lost.png"] [".jpg"; ".jpeg"; ".png"; ".tiff"; ".NEF"])
  /\ ~ (forall image_path,
          In image_path
             (images_of "d/sub" ["lost.png"] [".jpg"; ".jpeg"; ".png"; ".tiff"; ".NEF"])
          <-> exists name,
                In (name, File) [("lost.png"%string, File)]
                /\ @isfile env (Path.join "d/sub" name) = true
                /\ image_path = Path.join "d/sub" name
                /\ In (snd (Path.splitext name))
                      [".jpg"; ".jpeg"; ".png"; ".tiff"; ".NEF"]%string)
  /\ run (Some corrupt_below)
     = (Raise cv2_error,
        {| written_files := [("d/image_analysis_results.csv"%string,
                              [headers; row_of_record record_a])];
           printed_lines :=
             ["Data successfully exported to d/image_analysis_results.csv"%string] |}).
Proof.
  split; [vm_compute; auto|].
  split; [apply (dir_below "d" _ "sub" (Dir true [("lost.png"%string, File)]));
          [vm_compute; auto | constructor]|].
  split; [reflexivity|]. split; [vm_compute; auto|]. split; [|reflexivity].
  intros Hall.
  destruct (proj1 (Hall "d/sub/lost.png"%string)) as [name [Hin [Hreg _]]];
    [vm_compute; auto|].
  destruct Hin as [E|[]]. injection E as <-. discriminate.
Qed.

(** C7 on the top directory of the nested sample. *)
Lemma C7_witness :
  tree_ok nested = true
  /\ In ("d"%string, ["sub"; "empty"; "edge"; "locked"]%string,
         ["b.png"; "notes.txt"; "a.jpg"]%string) (os_walk "d" (Some nested))
  /\ exists entries,
       dir_at "d" nested "d" entries
       /\ (forall image_path,
             In image_path
                (images_of "d" ["b.png"; "notes.txt"; "a.jpg"]
                   [".jpg"; ".jpeg"; ".png"; ".tiff"; ".NEF"])
             <-> exists name,
                   In (name, File) entries
                   /\ image_path = Path.join "d" name
                   /\ In (snd (Path.splitext name))
                         [".jpg"; ".jpeg"; ".png"; ".tiff"; ".NEF"]%string)
       /\ ~ In (Path.join "d" "photo.JPG")
               (images_of "d" ["b.png"; "notes.txt"; "a.jpg"]
                  [".jpg"; ".jpeg"; ".png"; ".tiff"; ".NEF"])
       /\ ~ In (Path.join "d" "photo.nef")
               (images_of "d" ["b.png"; "notes.txt"; "a.jpg"]
                  [".jpg"; ".jpeg"; ".png"; ".tiff"; ".NEF"]).
Proof.
  assert (tree_ok nested = true) as H1 by reflexivity.
  assert (In ("d"%string, ["sub"; "empty"; "edge"; "locked"]%string,
              ["b.png"; "notes.txt"; "a.jpg"]%string) (os_walk "d" (Some nested)))
    as H2 by (vm_compute; auto).
  split; [exact H1|]. split; [exact H2|].
  exact (C7_selection_by_extension nested "d" "d" _ _ H1 H2).
Defined.

(** C10 on the row of copy.jpg in the report of [d/sub]. *)
Lemma C10_witness :
  tree_ok nested = true
  /\ In report_sub (written (run (Some nested)))
  /\ In (row_of_record record_copy) (tl (snd report_sub))
  /\ exists root entries name b v,
       dir_at "d" nested root entries
       /\ fst report_sub = Path.join root default_filename
       /\ In (name, File) entries
       /\ row_of_record record_copy
          = [VStr (Path.join root name); VStr name; VBool b; VFloat v]
       /\ Path.basename (Path.join root name) = name.
Proof.
  assert (tree_ok nested = true) as H1 by reflexivity.
  assert (In report_sub (written (run (Some nested)))) as H2 by (vm_compute; auto).
  assert (In (row_of_record record_copy) (tl (snd report_sub))) as H3
    by (simpl; auto).
  split; [exact H1|]. split; [exact H2|]. split; [exact H3|].
  exact (@C10_rows_colocated_with_report env nested "d" default_file_types
           default_threshold true true report_sub (row_of_record record_copy)
           H1 H2 H3).
Defined.

End SampleRuns.

Section SampleReports.
Import Sample.
Local Open Scope string_scope.


(** The row of a.jpg when the directory is named [my,dir]: the csv
    writer puts the full path between double quotes. *)
Example row_in_quoted_directory :
  @Csv.line env (row_of_record ("my,dir/a.jpg", "a.jpg", true, f40))
  = String Csv.dquote
      ("my,dir/a.jpg" ++ String Csv.dquote (",a.jpg,True,40.0" ++ Csv.CRLF)).
Proof. reflexivity. Qed.


End SampleReports.

Section SamplePool.
Import Sample Pool.

(** A run of the pool over the two images: both calls run at the same
    time, b.png finishes first, and the main thread reaches the report. *)
Lemma sample_pool_reachable :
  reachable (pool_dirs (Some two_images) "d" default_file_types)
    (@pool_fails env) MoreSample.returns (@pool_unwritable env (Some two_images) "d")
    true pool_state.
Proof.
  set (dirs := pool_dirs (Some two_images) "d" default_file_types).
  set (a := fun st => {| t_dir := 0; t_img := "d/a.jpg"; t_status := st |}).
  set (b := fun st => {| t_dir := 0; t_img := "d/b.png"; t_status := st |}).
  pose proof (reach_initial dirs (@pool_fails env) MoreSample.returns
                (@pool_unwritable env (Some two_images) "d") true) as R.
  apply (fun R => reach_step _ _ _ _ _ _ _ R
           (step_enter dirs _ _ _ _ 0 ["d/a.jpg"; "d/b.png"]%string [] [] eq_refl))
    in R.
  apply (fun R => reach_step _ _ _ _ _ _ _ R (step_submit dirs _ _ _ _ 0 _ _ _ _)) in R.
  apply (fun R => reach_step _ _ _ _ _ _ _ R (step_submit dirs _ _ _ _ 0 _ _ _ _)) in R.
  apply (fun R => reach_step _ _ _ _ _ _ _ R
           (step_submitted dirs _ _ _ _ 0 ["d/a.jpg"; "d/b.png"]%string _ _ eq_refl))
    in R.
  apply (fun R => reach_step _ _ _ _ _ _ _ R
           (step_start dirs _ _ _ _ _ [] (a Queued) [b Queued] [] eq_refl
              ltac:(cbv; lia))) in R.
  apply (fun R => reach_step _ _ _ _ _ _ _ R
           (step_start dirs _ _ _ _ _ [a Running] (b Queued) [] [] eq_refl
              ltac:(cbv; lia))) in R.
  apply (fun R => reach_step _ _ _ _ _ _ _ R
           (step_finish dirs _ _ _ _ _ [a Running] (b Running) [] [] eq_refl eq_refl))
    in R.
  apply (fun R => reach_step _ _ _ _ _ _ _ R
           (step_finish dirs _ _ _ _ _ [] (a Running) [b Done] [] eq_refl eq_refl))
    in R.
  apply (fun R => reach_step _ _ _ _ _ _ _ R
           (step_result dirs _ _ _ _ 0 "d/a.jpg" ["d/b.png"]%string [a Done; b Done] []
              (or_introl eq_refl : In (a Done) [a Done; b Done]) eq_refl)) in R.
  apply (fun R => reach_step _ _ _ _ _ _ _ R
           (step_result dirs _ _ _ _ 0 "d/b.png" [] [a Done; b Done] []
              (or_intror (or_introl eq_refl) : In (b Done) [a Done; b Done])
              eq_refl)) in R.
  apply (fun R => reach_step _ _ _ _ _ _ _ R (step_read dirs _ _ _ _ 0 _ _)) in R.
  apply (fun R => reach_step _ _ _ _ _ _ _ R
           (step_leave dirs _ _ _ _ 0 false ["d/a.jpg"; "d/b.png"]%string
              [a Done; b Done] [] eq_refl eq_refl)) in R.
  exact R.
Defined.

(** C9 on the state reached above. *)
Lemma C9_witness :
  reachable (pool_dirs (Some two_images) "d" default_file_types)
    (@pool_fails env) MoreSample.returns (@pool_unwritable env (Some two_images) "d")
    true pool_state
  /\ (forall d k, at_pc pool_state = Reporting d k ->
        nth_error (pool_dirs (Some two_images) "d" default_file_types) d
        = Some (map t_img (filter (of_dir d) (tasks pool_state)))
        /\ forall t, In t (tasks pool_state) -> t_dir t = d -> t_status t = Done)
  /\ (forall d t, In d (reports pool_state) -> In t (tasks pool_state) ->
                  t_dir t = d -> t_status t = Done)
  /\ (forall t, In t (tasks pool_state) -> t_status t <> Done ->
                current (at_pc pool_state) = Some (t_dir t))
  /\ (forall t1 t2, In t1 (tasks pool_state) -> In t2 (tasks pool_state) ->
                    t_status t1 <> Done -> t_status t2 <> Done ->
                    t_dir t1 = t_dir t2).
Proof.
  split; [exact sample_pool_reachable|].
  exact (@C9_join_barrier_sequential_directories env (Some two_images) "d"
           default_file_types MoreSample.returns true pool_state
           sample_pool_reachable).
Defined.

End SamplePool.

(** * More properties of blurred.py *)

(** ** The order of the floats is transitive *)

(** The comparison of two finite floats of the same sign. *)
Lemma lex_Lt (e1 e2 : Z) (m1 m2 : positive) :
  match (e1 ?= e2)%Z with
  | Lt => Lt | Gt => Gt | Eq => Pos.compare_cont Eq m1 m2
  end = Lt <-> (e1 < e2)%Z \/ (e1 = e2 /\ (m1 < m2)%positive).
Proof.
  change (Pos.compare_cont Eq m1 m2) with (m1 ?= m2)%positive.
  destruct (Z.compare_spec e1 e2); destruct (Pos.compare_spec m1 m2);
    split; intros; try discriminate; try reflexivity; try lia.
Qed.

Lemma lex_Eq (e1 e2 : Z) (m1 m2 : positive) :
  match (e1 ?= e2)%Z with
  | Lt => Lt | Gt => Gt | Eq => Pos.compare_cont Eq m1 m2
  end = Eq <-> e1 = e2 /\ m1 = m2.
Proof.
  change (Pos.compare_cont Eq m1 m2) with (m1 ?= m2)%positive.
  destruct (Z.compare_spec e1 e2); destruct (Pos.compare_spec m1 m2);
    split; intros; try discriminate; try reflexivity; try lia.
Qed.

Lemma lex_oppLt (e1 e2 : Z) (m1 m2 : positive) :
  match (e1 ?= e2)%Z with
  | Lt => Gt | Gt => Lt | Eq => CompOpp (Pos.compare_cont Eq m1 m2)
  end = Lt <-> (e2 < e1)%Z \/ (e1 = e2 /\ (m2 < m1)%positive).
Proof.
  change (Pos.compare_cont Eq m1 m2) with (m1 ?= m2)%positive.
  destruct (Z.compare_spec e1 e2); destruct (Pos.compare_spec m1 m2);
    split; simpl; intros; try discriminate; try reflexivity; try lia.
Qed.

Lemma lex_oppEq (e1 e2 : Z) (m1 m2 : positive) :
  match (e1 ?= e2)%Z with
  | Lt => Gt | Gt => Lt | Eq => CompOpp (Pos.compare_cont Eq m1 m2)
  end = Eq <-> e1 = e2 /\ m1 = m2.
Proof.
  change (Pos.compare_cont Eq m1 m2) with (m1 ?= m2)%positive.
  destruct (Z.compare_spec e1 e2); destruct (Pos.compare_spec m1 m2);
    split; simpl; intros; try discriminate; try reflexivity; try lia.
Qed.

(** Two comparisons that are not [>] compose. *)
Lemma SFcompare_trans (a b c : float) (c1 c2 : comparison) :
  SFcompare a b = Some c1 -> SFcompare b c = Some c2 ->
  c1 <> Gt -> c2 <> Gt ->
  SFcompare a c = Some (match c1, c2 with Eq, Eq => Eq | _, _ => Lt end).
Proof.
  destruct a as [s1|s1| |s1 m1 e1], b as [s2|s2| |s2 m2 e2], c as [s3|s3| |s3 m3 e3];
    simpl; try discriminate;
    destruct c1, c2; try congruence;
    try (destruct s1; simpl; congruence);
    try (destruct s2; simpl; congruence);
    try (destruct s3; simpl; congruence);
    try (destruct s1, s2; simpl; congruence);
    try (destruct s1, s3; simpl; congruence);
    try (destruct s2, s3; simpl; congruence);
    try (destruct s1, s2, s3; simpl; congruence).
  all: destruct s1, s2, s3; simpl; try congruence; intros H1 H2 _ _;
    injection H1 as H1; injection H2 as H2; f_equal.
  all: rewrite ?lex_Eq, ?lex_oppEq, ?lex_Lt, ?lex_oppLt in *; lia.
Qed.

Lemma fle_trans (a b c : float) :
  fle a b = true -> fle b c = true -> fle a c = true.
Proof.
  unfold fle, SFleb. intros H1 H2.
  destruct (SFcompare a b) as [c1|] eqn:E1; [|discriminate].
  destruct (SFcompare b c) as [c2|] eqn:E2; [|discriminate].
  rewrite (SFcompare_trans a b c c1 c2 E1 E2);
    destruct c1, c2; try discriminate; reflexivity.
Qed.

Lemma fle_flt_trans (a b c : float) :
  fle a b = true -> flt b c = true -> flt a c = true.
Proof.
  unfold fle, flt, SFleb, SFltb. intros H1 H2.
  destruct (SFcompare a b) as [c1|] eqn:E1; [|discriminate].
  destruct (SFcompare b c) as [c2|] eqn:E2; [|discriminate].
  rewrite (SFcompare_trans a b c c1 c2 E1 E2);
    destruct c1, c2; try discriminate; reflexivity.
Qed.

Lemma flt_fle_trans (a b c : float) :
  flt a b = true -> fle b c = true -> flt a c = true.
Proof.
  unfold fle, flt, SFleb, SFltb. intros H1 H2.
  destruct (SFcompare a b) as [c1|] eqn:E1; [|discriminate].
  destruct (SFcompare b c) as [c2|] eqn:E2; [|discriminate].
  rewrite (SFcompare_trans a b c c1 c2 E1 E2);
    destruct c1, c2; try discriminate; reflexivity.
Qed.

(** ** What a run writes and prints, as a whole *)

Section WholeRun.
Context `{Env}.

Lemma decodes_spec (img : string) : decodes img = true <-> imread img <> None.
Proof.
  unfold decodes. destruct (imread img); split; congruence.
Qed.

Lemma entry_decodes_spec (file_types : list string)
    (entry : string * list string * list string) :
  entry_decodes file_types entry = true <-> all_decodable file_types entry.
Proof.
  destruct entry as [[root dirs] files]. unfold entry_decodes, all_decodable.
  rewrite forallb_forall. split; intros Hd img Hin; apply decodes_spec, Hd, Hin.
Qed.

Lemma eval_images_decodes (threshold : float) (images : list string) :
  forallb decodes images = true ->
  exists rs, eval_images threshold images = Return rs
             /\ List.length rs = List.length images.
Proof.
  intros Hd. rewrite forallb_forall in Hd.
  destruct (eval_images_decodable threshold images) as [rs Hrs].
  - intros img Hin. apply decodes_spec, Hd, Hin.
  - exists rs. split; [exact Hrs|].
    rewrite <- (eval_images_paths _ _ _ Hrs), length_map. reflexivity.
Qed.

Lemma eval_images_fails (threshold : float) (images : list string) :
  forallb decodes images = false ->
  eval_images threshold images = Raise cv2_error.
Proof.
  intros Hd. apply eval_images_undecodable.
  induction images as [|img images IH]; [discriminate|].
  simpl in Hd. destruct (decodes img) eqn:E.
  - destruct (IH Hd) as [bad [? ?]]. exists bad. simpl. auto.
  - exists img. split; [simpl; auto|]. unfold decodes in E.
    destruct (imread img); [discriminate | reflexivity].
Qed.

(** A directory goes through exactly when it [proceeds]. *)
Lemma entry_passes_spec (file_types : list string) (export_to_csv : bool)
    (entry : string * list string * list string) :
  entry_passes file_types export_to_csv entry = true
  <-> proceeds file_types export_to_csv entry.
Proof.
  unfold entry_passes, entry_outcome, proceeds.
  rewrite <- entry_decodes_spec.
  destruct (entry_decodes file_types entry); simpl;
    [|split; [discriminate | intros [? _]; discriminate]].
  destruct export_to_csv, (has_images file_types entry),
    (writable (report_path entry)); simpl; split; auto;
    try (intros _; split; [reflexivity | congruence]).
  intros [_ Hw]. specialize (Hw eq_refl eq_refl). discriminate.
Qed.

(** The three ways the body of the loop ends on a directory. *)
Lemma entry_outcome_cv2 (file_types : list string) (export_to_csv : bool)
    (entry : string * list string * list string) :
  entry_outcome file_types export_to_csv entry = Raise cv2_error
  <-> entry_decodes file_types entry = false.
Proof.
  unfold entry_outcome. destruct (entry_decodes file_types entry); simpl.
  - destruct (export_to_csv && has_images file_types entry
              && negb (writable (report_path entry)))%bool;
      split; discriminate.
  - split; reflexivity.
Qed.

Lemma entry_outcome_OSError (file_types : list string) (export_to_csv : bool)
    (entry : string * list string * list string) :
  entry_outcome file_types export_to_csv entry = Raise OSError
  <-> entry_decodes file_types entry = true /\ export_to_csv = true
      /\ has_images file_types entry = true /\ writable (report_path entry) = false.
Proof.
  unfold entry_outcome. destruct (entry_decodes file_types entry); simpl.
  - destruct export_to_csv, (has_images file_types entry),
      (writable (report_path entry)); simpl; split;
      try discriminate; try tauto; intros [_ [? [? ?]]]; discriminate.
  - split; [discriminate | intros [? _]; discriminate].
Qed.

Lemma entry_outcome_not_EOF (file_types : list string) (export_to_csv : bool)
    (entry : string * list string * list string) :
  entry_outcome file_types export_to_csv entry <> Raise EOFError.
Proof.
  unfold entry_outcome. destruct (entry_decodes file_types entry); simpl.
  - destruct (export_to_csv && has_images file_types entry
              && negb (writable (report_path entry)))%bool; discriminate.
  - discriminate.
Qed.

(** The whole loop: it ends as the walk does, on its first failure; the
    reports written and the lines printed are those of the directories
    before that failure. *)
Lemma for_each_eq (file_types : list string) (threshold : float)
    (sort export_to_csv : bool) (l : list (string * list string * list string))
    (w : world) :
  for_each l (analyze_directory file_types threshold sort export_to_csv) w
  = (walk_outcome file_types export_to_csv l,
     {| written_files :=
          written_files w
          ++ (if export_to_csv
              then flat_map (report_for file_types threshold sort)
                            (before_failure file_types export_to_csv l)
              else []);
        printed_lines :=
          printed_lines w
          ++ (if export_to_csv
              then map export_message
                       (flat_map (report_for file_types threshold sort)
                                 (before_failure file_types export_to_csv l))
              else []) |}).
Proof.
  revert w. induction l as [|[[root dirs] files] l IH]; intros w.
  - simpl. destruct export_to_csv; rewrite !app_nil_r; destruct w; reflexivity.
  - rewrite for_each_cons, analyze_directory_eq.
    cbn [walk_outcome before_failure]. unfold entry_passes.
    destruct (forallb decodes (images_of root files file_types)) eqn:Hd.
    + destruct (eval_images_decodes threshold _ Hd) as [rs [Hrs Hlen]].
      assert (entry_outcome file_types export_to_csv (root, dirs, files)
              = if (export_to_csv && negb (Nat.eqb (List.length rs) 0)
                    && negb (writable (Path.join root default_filename)))%bool
                then Raise OSError else Return tt) as Eo.
      { unfold entry_outcome, entry_decodes, has_images, report_path.
        rewrite Hd, Hlen. reflexivity. }
      rewrite Eo, Hrs. cbv zeta.
      destruct (export_to_csv && negb (Nat.eqb (List.length rs) 0))%bool eqn:Ex.
      * apply andb_true_iff in Ex. destruct Ex as [-> Ex].
        destruct (writable (Path.join root default_filename)); cbn [negb andb].
        -- rewrite IH. cbn [written_files printed_lines flat_map].
           destruct rs as [|r rs]; [discriminate|].
           assert (report_for file_types threshold sort (root, dirs, files)
                   = [(Path.join root default_filename,
                       headers :: map row_of_record
                                    (if sort then list_sort variance (r :: rs)
                                     else r :: rs))]) as Er
             by (unfold report_for; rewrite Hrs; reflexivity).
           rewrite Er. cbn [map app export_message fst].
           rewrite <- !app_assoc. reflexivity.
        -- cbn [flat_map map]. rewrite !app_nil_r. destruct w; reflexivity.
      * rewrite IH. cbn [andb flat_map].
        destruct export_to_csv; [|reflexivity].
        destruct rs as [|r rs]; [|discriminate].
        assert (report_for file_types threshold sort (root, dirs, files) = []) as Er
          by (unfold report_for; rewrite Hrs; reflexivity).
        rewrite Er. reflexivity.
    + assert (entry_outcome file_types export_to_csv (root, dirs, files)
              = Raise cv2_error) as Eo
        by (apply entry_outcome_cv2; exact Hd).
      rewrite Eo, (eval_images_fails threshold _ Hd). cbn [flat_map map].
      destruct export_to_csv; rewrite !app_nil_r; destruct w; reflexivity.
Qed.

Lemma run_outcome (fs : option node) (dir_path : string) (file_types : list string)
    (threshold : float) (sort export_to_csv : bool) (w : world) :
  outcome (analyze_images_blurriness fs dir_path file_types threshold sort
             export_to_csv w)
  = walk_outcome file_types export_to_csv (os_walk dir_path fs).
Proof.
  unfold analyze_images_blurriness, outcome. rewrite for_each_eq. reflexivity.
Qed.

(** The walk ends normally when every directory goes through. *)
Lemma walk_outcome_Return (file_types : list string) (export_to_csv : bool)
    (l : list (string * list string * list string)) :
  walk_outcome file_types export_to_csv l = Return tt
  <-> forall entry, In entry l -> proceeds file_types export_to_csv entry.
Proof.
  induction l as [|e l IH]; simpl.
  - split; [intros _ ? [] | reflexivity].
  - pose proof (entry_passes_spec file_types export_to_csv e) as He.
    unfold entry_passes in He.
    destruct (entry_outcome file_types export_to_csv e) as [[]|x].
    + rewrite IH. split.
      * intros Hl entry [<-|Hin]; [apply He; reflexivity | auto].
      * intros Hl entry Hin. auto.
    + split; [discriminate|]. intros Hl.
      assert (false = true) by (apply He, Hl; auto). discriminate.
Qed.

(** It ends on the failure of the first directory that does not. *)
Lemma walk_outcome_split (file_types : list string) (export_to_csv : bool)
    (before after : list (string * list string * list string))
    (entry : string * list string * list string) (e : exn) :
  (forall entry', In entry' before -> proceeds file_types export_to_csv entry') ->
  entry_outcome file_types export_to_csv entry = Raise e ->
  walk_outcome file_types export_to_csv (before ++ entry :: after) = Raise e.
Proof.
  intros Hb He. induction before as [|b before IH]; simpl.
  - rewrite He. reflexivity.
  - assert (entry_passes file_types export_to_csv b = true) as Hp
      by (apply entry_passes_spec, Hb; simpl; auto).
    unfold entry_passes in Hp.
    destruct (entry_outcome file_types export_to_csv b); [|discriminate].
    apply IH. intros; apply Hb; simpl; auto.
Qed.

Lemma walk_outcome_Raise (file_types : list string) (export_to_csv : bool)
    (l : list (string * list string * list string)) (e : exn) :
  walk_outcome file_types export_to_csv l = Raise e ->
  exists before entry after,
    l = before ++ entry :: after
    /\ (forall entry', In entry' before -> proceeds file_types export_to_csv entry')
    /\ entry_outcome file_types export_to_csv entry = Raise e.
Proof.
  induction l as [|b l IH]; simpl; [discriminate|].
  pose proof (entry_passes_spec file_types export_to_csv b) as Hb.
  unfold entry_passes in Hb.
  destruct (entry_outcome file_types export_to_csv b) as [[]|x] eqn:Eb.
  - intros Hl. destruct (IH Hl) as [before [entry [after [-> [Hp He]]]]].
    exists (b :: before), entry, after. split; [reflexivity|]. split; [|exact He].
    intros entry' [<-|Hin]; [apply Hb; reflexivity | auto].
  - intros [= ->]. exists [], b, l. split; [reflexivity|]. split; [intros ? []|].
    exact Eb.
Qed.

Lemma before_failure_all (file_types : list string) (export_to_csv : bool)
    (l : list (string * list string * list string)) :
  (forall entry, In entry l -> proceeds file_types export_to_csv entry) ->
  before_failure file_types export_to_csv l = l.
Proof.
  induction l as [|e l IH]; intros Hd; [reflexivity|].
  simpl. rewrite (proj2 (entry_passes_spec file_types export_to_csv e))
    by (apply Hd; simpl; auto).
  rewrite IH; [reflexivity|]. intros; apply Hd; simpl; auto.
Qed.


Lemma before_failure_prefix (file_types : list string) (export_to_csv : bool)
    (l : list (string * list string * list string)) :
  exists rest, l = before_failure file_types export_to_csv l ++ rest.
Proof.
  induction l as [|e l [rest IH]]; [exists []; reflexivity|].
  simpl. destruct (entry_passes file_types export_to_csv e).
  - exists rest. simpl. rewrite <- IH. reflexivity.
  - exists (e :: l). reflexivity.
Qed.

Lemma before_failure_proceeds (file_types : list string) (export_to_csv : bool)
    (l : list (string * list string * list string)) (entry : _) :
  In entry (before_failure file_types export_to_csv l) ->
  proceeds file_types export_to_csv entry.
Proof.
  induction l as [|e l IH]; [intros []|].
  simpl. destruct (entry_passes file_types export_to_csv e) eqn:E; [|intros []].
  intros [<-|Hin]; [apply entry_passes_spec, E | auto].
Qed.

(** The reports of directories that decode: one per directory with an
    image, at the path of its report. *)
Lemma report_for_paths (file_types : list string) (threshold : float) (sort : bool)
    (l : list (string * list string * list string)) :
  (forall entry, In entry l -> entry_decodes file_types entry = true) ->
  map fst (flat_map (report_for file_types threshold sort) l)
  = map report_path (filter (has_images file_types) l).
Proof.
  induction l as [|[[root dirs] files] l IH]; intros Hd; [reflexivity|].
  cbn [flat_map filter]. rewrite map_app, IH by (intros; apply Hd; simpl; auto).
  pose proof (Hd (root, dirs, files) (or_introl eq_refl)) as He.
  unfold entry_decodes in He.
  destruct (eval_images_decodes threshold _ He) as [rs [Hrs Hlen]].
  unfold report_for, has_images. rewrite Hrs, <- Hlen.
  destruct rs; reflexivity.
Qed.

End WholeRun.

Section RunProperties.
Context `{Env}.



(** X4. A run prints one line per file it writes, in writing order:
    [Data successfully exported to] followed by the path of the file;
    it prints nothing else, whether it ends normally or on an error. *)
Theorem X4_one_message_per_report (fs : option node) (dir_path : string)
    (file_types : list string) (threshold : float) (sort export_to_csv : bool) :
  printed (analyze_images_blurriness fs dir_path file_types threshold sort
             export_to_csv empty_world)
  = map (fun file => ("Data successfully exported to " ++ fst file)%string)
        (written (analyze_images_blurriness fs dir_path file_types threshold sort
                    export_to_csv empty_world)).
Proof.
  unfold analyze_images_blurriness, printed, written. rewrite for_each_eq. simpl.
  destruct export_to_csv; reflexivity.
Qed.

(** X5. Without [export_to_csv] a run writes no file and prints
    nothing: it ends normally exactly when every selected image
    decodes, and on cv2's error otherwise, never on [OSError]. It
    evaluates the same images as the exporting run: whenever that one
    ends normally or on cv2's error, so does the run without export. *)
Theorem X5_export_off_only_evaluates (fs : option node) (dir_path : string)
    (file_types : list string) (threshold : float) (sort sort' : bool) (w w' : world) :
  snd (analyze_images_blurriness fs dir_path file_types threshold sort false w) = w
  /\ (outcome (analyze_images_blurriness fs dir_path file_types threshold sort false w)
      = Return tt
      <-> forall entry, In entry (os_walk dir_path fs) ->
            all_decodable file_types entry)
  /\ (outcome (analyze_images_blurriness fs dir_path file_types threshold sort false w)
      <> Return tt ->
      outcome (analyze_images_blurriness fs dir_path file_types threshold sort false w)
      = Raise cv2_error)
  /\ (outcome (analyze_images_blurriness fs dir_path file_types threshold sort' true w')
      = Return tt ->
      outcome (analyze_images_blurriness fs dir_path file_types threshold sort false w)
      = Return tt)
  /\ (outcome (analyze_images_blurriness fs dir_path file_types threshold sort' true w')
      = Raise cv2_error ->
      outcome (analyze_images_blurriness fs dir_path file_types threshold sort false w)
      = Raise cv2_error).
Proof.
  assert (forall entry, proceeds file_types false entry
                        <-> all_decodable file_types entry) as Hoff.
  { intros entry. unfold proceeds. split; [intros [Hd _]; exact Hd|]. intros Hd.
    split; [exact Hd | discriminate]. }
  split; [|split; [|split; [|split]]].
  - unfold analyze_images_blurriness. rewrite for_each_eq. simpl.
    rewrite !app_nil_r. destruct w; reflexivity.
  - rewrite run_outcome, walk_outcome_Return.
    split; intros Hd entry Hin; apply Hoff, Hd, Hin.
  - rewrite run_outcome.
    destruct (walk_outcome file_types false (os_walk dir_path fs)) as [[]|e] eqn:E;
      [congruence|].
    intros _. apply walk_outcome_Raise in E.
    destruct E as [_ [entry [_ [_ [_ He]]]]].
    destruct e; [reflexivity| |destruct (entry_outcome_not_EOF _ _ _ He)].
    apply entry_outcome_OSError in He. destruct He as [_ [He _]]. discriminate.
  - rewrite !run_outcome, !walk_outcome_Return.
    intros Hd entry Hin. apply Hoff. apply (Hd entry Hin).
  - rewrite !run_outcome. intros Hr. apply walk_outcome_Raise in Hr.
    destruct Hr as [before [entry [after [-> [Hb He]]]]].
    apply walk_outcome_split.
    + intros entry' Hin. apply Hoff. apply (Hb entry' Hin).
    + apply entry_outcome_cv2. apply entry_outcome_cv2 in He. exact He.
Qed.

Lemma report_for_sort (file_types : list string) (threshold : float)
    (l : list (string * list string * list string)) :
  Forall2 (fun f g => fst f = fst g
                      /\ hd_error (snd f) = hd_error (snd g)
                      /\ Permutation (tl (snd f)) (tl (snd g)))
          (flat_map (report_for file_types threshold true) l)
          (flat_map (report_for file_types threshold false) l).
Proof.
  induction l as [|[[root dirs] files] l IH]; [constructor|].
  cbn [flat_map]. unfold report_for at 1 3.
  destruct (eval_images threshold (images_of root files file_types)) as [[|r rs]|e];
    try exact IH.
  simpl app. constructor; [|exact IH].
  cbn [fst snd hd_error tl]. repeat split.
  exact (Permutation_map row_of_record (list_sort_perm variance (r :: rs))).
Qed.

(** X6. Sorting only reorders rows: with and without [sort] a run ends
    the same way, prints the same lines and writes the same files, each
    with the same header and the same rows up to their order. *)
Theorem X6_sort_only_reorders_rows (fs : option node) (dir_path : string)
    (file_types : list string) (threshold : float) (export_to_csv : bool) :
  outcome (analyze_images_blurriness fs dir_path file_types threshold true
             export_to_csv empty_world)
  = outcome (analyze_images_blurriness fs dir_path file_types threshold false
               export_to_csv empty_world)
  /\ printed (analyze_images_blurriness fs dir_path file_types threshold true
                export_to_csv empty_world)
     = printed (analyze_images_blurriness fs dir_path file_types threshold false
                  export_to_csv empty_world)
  /\ Forall2 (fun f g => fst f = fst g
                         /\ hd_error (snd f) = hd_error (snd g)
                         /\ Permutation (tl (snd f)) (tl (snd g)))
       (written (analyze_images_blurriness fs dir_path file_types threshold true
                   export_to_csv empty_world))
       (written (analyze_images_blurriness fs dir_path file_types threshold false
                   export_to_csv empty_world)).
Proof.
  unfold analyze_images_blurriness, outcome, printed, written.
  rewrite !for_each_eq.
  cbn [fst snd written_files printed_lines empty_world app].
  pose proof (report_for_sort file_types threshold
                (before_failure file_types export_to_csv (os_walk dir_path fs)))
    as Hs.
  split; [reflexivity|]. split.
  - destruct export_to_csv; [|reflexivity].
    induction Hs as [|f g l1 l2 [Hf _] _ IH]; [reflexivity|].
    cbn [map]. rewrite IH. unfold export_message. rewrite Hf. reflexivity.
  - destruct export_to_csv; [exact Hs | constructor].
Qed.

End RunProperties.

(** ** The threshold and the order of the rows *)

Section Thresholds.
Context `{Env}.

Lemma eval_images_thresholds (t1 t2 : float) (images : list string) :
  match eval_images t1 images, eval_images t2 images with
  | Return rs1, Return rs2 => Forall2 same_but_flag rs1 rs2
  | Raise _, Raise _ => True
  | _, _ => False
  end.
Proof.
  induction images as [|img images IH]; simpl; [constructor|].
  unfold eval_image. destruct (imread img); [|exact I].
  destruct (eval_images t1 images), (eval_images t2 images); try tauto.
  constructor; [|exact IH]. repeat split.
Qed.

Lemma insert_by_same_but_flag (x1 x2 : record) (l1 l2 : list record) :
  same_but_flag x1 x2 -> Forall2 same_but_flag l1 l2 ->
  Forall2 same_but_flag (insert_by variance x1 l1) (insert_by variance x2 l2).
Proof.
  intros Hx Hl. induction Hl as [|y1 y2 l1 l2 Hy Hl IH]; simpl.
  - constructor; [exact Hx | constructor].
  - destruct Hx as [? [? Vx]], Hy as [? [? Vy]]. rewrite Vx, Vy.
    destruct (flt (variance y2) (variance x2)).
    + constructor; [repeat split; assumption | exact IH].
    + constructor; [repeat split; assumption|].
      constructor; [repeat split; assumption | exact Hl].
Qed.

Lemma list_sort_same_but_flag (l1 l2 : list record) :
  Forall2 same_but_flag l1 l2 ->
  Forall2 same_but_flag (list_sort variance l1) (list_sort variance l2).
Proof.
  induction 1 as [|x1 x2 l1 l2 Hx Hl IH]; simpl; [constructor|].
  apply insert_by_same_but_flag; assumption.
Qed.

Lemma rows_without_flag (l1 l2 : list record) :
  Forall2 same_but_flag l1 l2 ->
  map without_flag (map row_of_record l1) = map without_flag (map row_of_record l2).
Proof.
  induction 1 as [|x1 x2 l1 l2 [Hp [Hn Hv]] Hl IH]; [reflexivity|].
  simpl. rewrite IH, Hp, Hn, Hv. reflexivity.
Qed.

Lemma report_for_thresholds (file_types : list string) (t1 t2 : float) (sort : bool)
    (l : list (string * list string * list string)) :
  map (fun file => (fst file, map without_flag (snd file)))
      (flat_map (report_for file_types t1 sort) l)
  = map (fun file => (fst file, map without_flag (snd file)))
        (flat_map (report_for file_types t2 sort) l).
Proof.
  induction l as [|[[root dirs] files] l IH]; [reflexivity|].
  cbn [flat_map]. rewrite !map_app, IH. f_equal.
  unfold report_for.
  pose proof (eval_images_thresholds t1 t2 (images_of root files file_types)) as Hr.
  destruct (eval_images t1 (images_of root files file_types)) as [rs1|],
           (eval_images t2 (images_of root files file_types)) as [rs2|];
    try tauto.
  destruct Hr as [|r1 r2 rs1 rs2 Hr Hrs]; [reflexivity|].
  assert (Forall2 same_but_flag (r1 :: rs1) (r2 :: rs2)) as Hall
    by (constructor; assumption).
  cbn [map fst snd]. f_equal. f_equal. f_equal.
  apply rows_without_flag.
  destruct sort; [apply list_sort_same_but_flag|]; exact Hall.
Qed.

(** X7. The threshold decides the column Is Blurry and nothing else:
    under two thresholds a run ends the same way, prints the same lines
    and writes the same files with the same rows in the same order, but
    for the flags. *)
Theorem X7_threshold_only_changes_flags (fs : option node) (dir_path : string)
    (file_types : list string) (t1 t2 : float) (sort export_to_csv : bool) :
  outcome (analyze_images_blurriness fs dir_path file_types t1 sort export_to_csv
             empty_world)
  = outcome (analyze_images_blurriness fs dir_path file_types t2 sort export_to_csv
               empty_world)
  /\ printed (analyze_images_blurriness fs dir_path file_types t1 sort export_to_csv
                empty_world)
     = printed (analyze_images_blurriness fs dir_path file_types t2 sort export_to_csv
                  empty_world)
  /\ map (fun file => (fst file, map without_flag (snd file)))
         (written (analyze_images_blurriness fs dir_path file_types t1 sort
                     export_to_csv empty_world))
     = map (fun file => (fst file, map without_flag (snd file)))
           (written (analyze_images_blurriness fs dir_path file_types t2 sort
                       export_to_csv empty_world)).
Proof.
  unfold analyze_images_blurriness, outcome, printed, written.
  rewrite !for_each_eq.
  cbn [fst snd written_files printed_lines empty_world app].
  pose proof (report_for_thresholds file_types t1 t2 sort
                (before_failure file_types export_to_csv (os_walk dir_path fs)))
    as Ht.
  split; [reflexivity|]. split; [|destruct export_to_csv; [exact Ht | reflexivity]].
  destruct export_to_csv; [|reflexivity].
  apply (f_equal (map (fun p : string * list (list value) =>
                         ("Data successfully exported to " ++ fst p)%string))) in Ht.
  rewrite !map_map in Ht. exact Ht.
Qed.

(** X8. Raising the threshold never clears a flag: an image found blurry
    under a threshold is found blurry, with the same variance, under
    every threshold that is at least as large. *)
Theorem X8_blurry_is_monotone_in_threshold (image_path : string) (t1 t2 : float)
    (verbose1 verbose2 : bool) (w1 w2 : world) (v : float) :
  outcome (is_blurry image_path t1 verbose1 w1) = Return (true, v) ->
  fle t1 t2 = true ->
  outcome (is_blurry image_path t2 verbose2 w2) = Return (true, v).
Proof.
  rewrite !is_blurry_outcome. destruct (imread image_path) as [img|]; [|discriminate].
  intros [= Hb <-] Hle. rewrite (flt_fle_trans _ _ _ Hb Hle). reflexivity.
Qed.

Lemma key_le_transitive : Relations_1.Transitive (key_le variance).
Proof. intros a b c. apply fle_trans. Qed.

Lemma strongly_sorted_nth {A} (R : A -> A -> Prop) (l : list A) :
  StronglySorted R l ->
  forall i j a b, i < j -> nth_error l i = Some a -> nth_error l j = Some b -> R a b.
Proof.
  induction 1 as [|x l Hs IH Hall]; intros i j a b Hij Ha Hb.
  - destruct i; discriminate.
  - destruct j as [|j]; [lia|]. simpl in Hb. destruct i as [|i]; simpl in Ha.
    + injection Ha as <-. rewrite Forall_forall in Hall.
      apply Hall. eapply nth_error_In, Hb.
    + apply (IH i j); [lia | assumption | assumption].
Qed.

(** X9. In a sorted report the blurriest image comes first and the
    flagged rows come before the others: of two rows, the earlier one
    has the smaller or equal variance, and it is flagged blurry
    whenever the later one is. (cv2 returns no NaN as a variance.) *)
Theorem X9_sorted_report_blurry_rows_first (fs : option node) (dir_path : string)
    (file_types : list string) (threshold : float) (export_to_csv : bool)
    (file : string * list (list value)) :
  (forall img, is_nan (Laplacian_var img) = false) ->
  In file (written (analyze_images_blurriness fs dir_path file_types threshold true
                      export_to_csv empty_world)) ->
  exists rows,
    snd file = headers :: map row_of_record rows
    /\ forall i j ri rj,
         i < j -> nth_error rows i = Some ri -> nth_error rows j = Some rj ->
         fle (variance ri) (variance rj) = true
         /\ (blurry rj = true -> blurry ri = true).
Proof.
  intros Hnan Hin. apply run_written in Hin.
  destruct Hin as [[[root dirs] files] [Hw [rs [Hrs [Hne [Hp Hrows]]]]]].
  exists (list_sort variance rs). split; [exact Hrows|].
  unfold outcome in Hrs. rewrite evaluate_directory_eq in Hrs. simpl in Hrs.
  apply eval_images_Return in Hrs.
  assert (Forall (fun r => is_nan (variance r) = false
                           /\ blurry r = flt (variance r) threshold) rs) as Hall.
  { clear -Hrs Hnan.
    induction Hrs as [|img r images rs Hr _ IH]; constructor; [|exact IH].
    unfold eval_image in Hr. destruct (imread img); [|discriminate].
    injection Hr as <-. split; [apply Hnan | reflexivity]. }
  assert (StronglySorted (key_le variance) (list_sort variance rs)) as Hs.
  { apply Sorted_StronglySorted; [exact key_le_transitive|].
    apply list_sort_sorted. eapply Forall_impl; [|exact Hall]. intros r [? _].
    assumption. }
  assert (Forall (fun r => blurry r = flt (variance r) threshold)
                 (list_sort variance rs)) as Hflag.
  { eapply Permutation_Forall; [apply Permutation_sym, list_sort_perm|].
    eapply Forall_impl; [|exact Hall]. intros r [_ ?]. assumption. }
  rewrite Forall_forall in Hflag.
  intros i j ri rj Hij Hi Hj.
  pose proof (strongly_sorted_nth _ _ Hs i j ri rj Hij Hi Hj) as Hle.
  split; [exact Hle|].
  rewrite (Hflag ri (nth_error_In _ _ Hi)), (Hflag rj (nth_error_In _ _ Hj)).
  intros Hb. exact (fle_flt_trans _ _ _ Hle Hb).
Qed.

End Thresholds.

(** ** No report is written twice *)

Section DistinctReports.
Import PyStr Path.

Lemma tree_ok_cons (listable : bool) (name : string) (child : node)
    (entries : list (string * node)) :
  tree_ok (Dir listable ((name, child) :: entries)) = true ->
  name_ok name = true /\ ~ In name (map fst entries) /\ tree_ok child = true
  /\ tree_ok (Dir listable entries) = true.
Proof.
  simpl. intros Hok.
  apply andb_true_iff in Hok. destruct Hok as [Hok Hrest].
  apply andb_true_iff in Hok. destruct Hok as [Hok Hc].
  apply andb_true_iff in Hok. destruct Hok as [Hn Hfresh].
  apply negb_true_iff in Hfresh.
  repeat split; trivial.
  intros Hin. apply mem_In in Hin. congruence.
Qed.

(** The roots of the walk below one entry start with the path of that
    entry, followed by nothing or by a separator. *)
Lemma walk_root_extends (top name : string) (child : node) (root : string)
    (dirs files : list string) :
  name_ok name = true -> tree_ok child = true ->
  In (root, dirs, files) (walk (join top name) child) ->
  String.length top < String.length root
  /\ exists rest, root = (join top "" ++ name ++ rest)%string
                  /\ (rest = ""%string \/ startswith rest sep = true).
Proof.
  intros Hn Hc Hin.
  destruct (walk_dir_at _ _ _ _ _ Hin) as [es [Hd _]].
  destruct (join_name_plain top name Hn) as [Hp Hl].
  split.
  - destruct (dir_at_plain _ _ _ _ Hd Hc) as [->|[_ Hl']]; lia.
  - destruct (dir_at_extends _ _ _ _ Hd Hc Hp) as [rest [-> Hr]].
    exists rest. split; [|exact Hr].
    destruct (name_ok_spec _ Hn) as [_ Hsep].
    rewrite (join_prefix top name (startswith_absent _ _ Hsep)).
    apply append_assoc.
Qed.

(** On a well-formed tree the walk visits no path twice. *)
Lemma walk_roots_distinct (n : node) :
  forall top, tree_ok n = true ->
    NoDup (map (fun entry => fst (fst entry)) (walk top n)).
Proof.
  induction n as [|listable entries IH] using node_induction; intros top Hok.
  - constructor.
  - destruct listable; [|constructor]. simpl. constructor.
    + intros Hin. apply in_map_iff in Hin.
      destruct Hin as [[[root dirs] files] [Hroot Hin]]. simpl in Hroot. subst root.
      apply in_flat_map in Hin. destruct Hin as [[name child] [He Hin]].
      destruct (is_dir child); [|destruct Hin].
      destruct (tree_ok_entries _ _ Hok _ _ He) as [Hn Hc].
      destruct (walk_root_extends _ _ _ _ _ _ Hn Hc Hin) as [Hl _]. lia.
    + clear -IH Hok. induction entries as [|[name child] entries IHe];
        [constructor|].
      destruct (tree_ok_cons _ _ _ _ Hok) as [Hn [Hfresh [Hc Hrest]]].
      inversion IH as [|? ? IHc IHrest]; subst. simpl in IHc.
      cbn [flat_map]. rewrite map_app. apply NoDup_app.
      * destruct (is_dir child); [apply IHc, Hc | constructor].
      * apply IHe; assumption.
      * intros root H1 H2. apply in_map_iff in H1, H2.
        destruct H1 as [[[r1 d1] f1] [E1 H1]], H2 as [[[r2 d2] f2] [E2 H2]].
        simpl in E1, E2. subst r1 r2.
        destruct (is_dir child); [|destruct H1].
        apply in_flat_map in H2. destruct H2 as [[name2 child2] [He2 H2]].
        destruct (is_dir child2); [|destruct H2].
        destruct (tree_ok_entries _ _ Hrest _ _ He2) as [Hn2 Hc2].
        destruct (walk_root_extends _ _ _ _ _ _ Hn Hc H1) as [_ [rest1 [E1 R1]]].
        destruct (walk_root_extends _ _ _ _ _ _ Hn2 Hc2 H2) as [_ [rest2 [E2 R2]]].
        rewrite E1 in E2. apply append_inj_l in E2.
        destruct (name_ok_spec _ Hn) as [_ Hs1].
        destruct (name_ok_spec _ Hn2) as [_ Hs2].
        apply name_split in E2; trivial. subst name2.
        apply Hfresh. apply in_map_iff. exists (name, child2). auto.
Qed.

Lemma walk_entry_of_root (n : node) (top : string)
    (e1 e2 : string * list string * list string) :
  tree_ok n = true -> In e1 (walk top n) -> In e2 (walk top n) ->
  report_path e1 = report_path e2 -> e1 = e2.
Proof.
  destruct e1 as [[r1 d1] f1], e2 as [[r2 d2] f2]. unfold report_path. simpl.
  intros Hok H1 H2 E.
  destruct (walk_dir_at _ _ _ _ _ H1) as [es1 [D1 [-> ->]]].
  destruct (walk_dir_at _ _ _ _ _ H2) as [es2 [D2 [-> ->]]].
  pose proof (report_path_inj _ _ _ _ _ _ Hok D1 D2 E) as ->.
  rewrite (dir_at_unique _ _ _ _ _ Hok D1 D2). reflexivity.
Qed.

End DistinctReports.

Section DistinctReportsOfRun.
Context `{Env}.

Lemma report_for_some_paths (file_types : list string) (threshold : float) (sort : bool)
    (l : list (string * list string * list string)) :
  exists keep,
    map fst (flat_map (report_for file_types threshold sort) l)
    = map report_path (filter keep l).
Proof.
  exists (fun entry =>
            match report_for file_types threshold sort entry with
            | [] => false
            | _ => true
            end).
  induction l as [|[[root dirs] files] l IH]; [reflexivity|].
  cbn [flat_map filter]. rewrite map_app, IH. unfold report_for at 1 3.
  destruct (eval_images threshold (images_of root files file_types)) as [[|r rs]|e];
    reflexivity.
Qed.

(** X10. On a well-formed tree a run writes no path twice: the report of
    a directory is never overwritten by the report of another one. *)
Theorem X10_report_paths_distinct (n : node) (dir_path : string)
    (file_types : list string) (threshold : float) (sort export_to_csv : bool) :
  tree_ok n = true ->
  NoDup (map fst (written (analyze_images_blurriness (Some n) dir_path file_types
                             threshold sort export_to_csv empty_world))).
Proof.
  intros Hok. unfold analyze_images_blurriness, written. rewrite for_each_eq.
  cbn [snd written_files empty_world app].
  destruct export_to_csv; [|constructor].
  destruct (report_for_some_paths file_types threshold sort
              (before_failure file_types true (os_walk dir_path (Some n))))
    as [keep ->].
  destruct (before_failure_prefix file_types true (os_walk dir_path (Some n)))
    as [rest Hrest].
  pose proof (NoDup_map_inv _ _ (walk_roots_distinct n dir_path Hok)) as Hnd.
  simpl os_walk in *. rewrite Hrest in Hnd. apply NoDup_app_remove_r in Hnd.
  apply Finite.Injective_map_NoDup_in; [|apply NoDup_filter, Hnd].
  intros e1 e2 H1 H2 E. apply filter_In in H1, H2.
  apply (walk_entry_of_root n dir_path); trivial;
    rewrite Hrest; apply in_app_iff; left; tauto.
Qed.

End DistinctReportsOfRun.

(** ** The listing function *)

Section Listing.

Lemma list_files_loop (root : string) (file_types files acc : list string) :
  fold_left (fun file_list file =>
               if PyStr.mem (snd (Path.splitext file)) file_types
               then file_list ++ [Path.join root file]
               else file_list)
            files acc
  = acc ++ images_of root files file_types.
Proof.
  revert acc. unfold images_of.
  induction files as [|file files IH]; intros acc; simpl.
  - rewrite app_nil_r. reflexivity.
  - rewrite IH. destruct (PyStr.mem (snd (Path.splitext file)) file_types).
    + simpl. rewrite <- app_assoc. reflexivity.
    + reflexivity.
Qed.

Lemma list_walk_loop (file_types : list string)
    (l : list (string * list string * list string)) (acc : list string) :
  fold_left
    (fun file_list entry =>
       let '(root, dirs, files) := entry in
       fold_left
         (fun file_list file =>
            if PyStr.mem (snd (Path.splitext file)) file_types
            then file_list ++ [Path.join root file]
            else file_list)
         files file_list)
    l acc
  = acc ++ flat_map (fun entry => let '(root, _, files) := entry in
                                  images_of root files file_types) l.
Proof.
  revert acc. induction l as [|[[root dirs] files] l IH]; intros acc; simpl.
  - rewrite app_nil_r. reflexivity.
  - rewrite IH, list_files_loop, <- app_assoc. reflexivity.
Qed.

(** X1. [get_fullpath_images_from_directory] returns, directory after
    directory in the order of the walk, the images that
    [analyze_images_blurriness] selects in each directory; a path is
    returned exactly when it joins a directory of the walk and one of
    its files whose extension is among [file_types]. *)
Theorem X1_listing_is_the_selection_of_the_walk (n : node) (dir_path : string)
    (file_types : list string) :
  get_fullpath_images_from_directory (Some n) dir_path file_types
  = flat_map (fun entry => let '(root, _, files) := entry in
                           images_of root files file_types)
             (os_walk dir_path (Some n))
  /\ forall image_path,
       In image_path (get_fullpath_images_from_directory (Some n) dir_path file_types)
       <-> exists root entries name,
             dir_at dir_path n root entries
             /\ In (name, File) entries
             /\ image_path = Path.join root name
             /\ In (snd (Path.splitext name)) file_types.
Proof.
  assert (get_fullpath_images_from_directory (Some n) dir_path file_types
          = flat_map (fun entry => let '(root, _, files) := entry in
                                   images_of root files file_types)
                     (os_walk dir_path (Some n))) as E
    by (unfold get_fullpath_images_from_directory; apply list_walk_loop).
  split; [exact E|]. intros p. rewrite E, in_flat_map. simpl os_walk. split.
  - intros [[[root dirs] files] [Hw Hin]].
    destruct (walk_dir_at _ _ _ _ _ Hw) as [es [Hd [-> ->]]].
    apply in_images_of in Hin. destruct Hin as [name [Hn [-> Hext]]].
    exists root, es, name. repeat split; trivial. apply in_filenames, Hn.
  - intros [root [es [name [Hd [Hn [-> Hext]]]]]].
    exists (root, dirnames es, filenames es). split; [apply dir_at_walk, Hd|].
    apply in_images_of. exists name. repeat split; trivial. apply in_filenames, Hn.
Qed.

End Listing.

Section ListingAndReports.
Context `{Env}.

Lemma path_column_rows (p : string) (rows : list record) :
  path_column (p, headers :: map row_of_record rows) = map full_path rows.
Proof.
  unfold path_column. simpl. induction rows as [|r rows IH]; [reflexivity|].
  simpl. rewrite IH. reflexivity.
Qed.

Lemma report_for_column (file_types : list string) (threshold : float) (sort : bool)
    (l : list (string * list string * list string)) :
  (forall entry, In entry l -> entry_decodes file_types entry = true) ->
  Permutation
    (flat_map path_column (flat_map (report_for file_types threshold sort) l))
    (flat_map (fun entry => let '(root, _, files) := entry in
                            images_of root files file_types) l)
  /\ (sort = false ->
      flat_map path_column (flat_map (report_for file_types threshold sort) l)
      = flat_map (fun entry => let '(root, _, files) := entry in
                               images_of root files file_types) l).
Proof.
  induction l as [|[[root dirs] files] l IH]; intros Hd.
  - split; [constructor | reflexivity].
  - destruct IH as [IHp IHe]; [intros; apply Hd; simpl; auto|].
    pose proof (Hd (root, dirs, files) (or_introl eq_refl)) as He.
    unfold entry_decodes in He.
    destruct (eval_images_decodes threshold _ He) as [rs [Hrs Hlen]].
    pose proof (eval_images_paths _ _ _ Hrs) as Hpaths.
    cbn [flat_map]. rewrite flat_map_app. unfold report_for at 1 3.
    rewrite Hrs, <- Hpaths.
    destruct rs as [|r rs].
    + simpl. auto.
    + cbn [flat_map]. rewrite app_nil_r, path_column_rows. split.
      * apply Permutation_app; [|exact IHp].
        destruct sort; [|apply Permutation_refl].
        apply Permutation_map, list_sort_perm.
      * intros ->. rewrite IHe by reflexivity. reflexivity.
Qed.

(** X11. When a run with [export_to_csv] ends normally, the column Full
    Path of its reports, taken together, holds each path that
    [get_fullpath_images_from_directory] lists, as many times: every
    listed image has its row. Without [sort] the rows even come in the
    order of the listing. *)
Theorem X11_reports_cover_the_listing (fs : option node) (dir_path : string)
    (file_types : list string) (threshold : float) (sort : bool) :
  outcome (analyze_images_blurriness fs dir_path file_types threshold sort true
             empty_world) = Return tt ->
  Permutation
    (flat_map path_column
       (written (analyze_images_blurriness fs dir_path file_types threshold sort true
                   empty_world)))
    (get_fullpath_images_from_directory fs dir_path file_types)
  /\ (sort = false ->
      flat_map path_column
        (written (analyze_images_blurriness fs dir_path file_types threshold sort true
                    empty_world))
      = get_fullpath_images_from_directory fs dir_path file_types).
Proof.
  rewrite run_outcome, walk_outcome_Return. intros Hall.
  unfold analyze_images_blurriness, written. rewrite for_each_eq.
  cbn [snd written_files empty_world app].
  unfold get_fullpath_images_from_directory. rewrite list_walk_loop. cbn [app].
  rewrite (before_failure_all _ _ _ Hall).
  apply report_for_column. intros entry Hin.
  apply entry_decodes_spec. apply (Hall entry Hin).
Qed.

(** X12. [is_blurry] writes no file. With [verbose] it prints one line
    when the image decodes, which says [floue] exactly when the flag it
    returns is [True] and carries the variance with two decimals; it
    prints nothing without [verbose] or when it raises. *)
Theorem X12_is_blurry_prints_its_verdict (image_path : string) (threshold : float)
    (verbose : bool) (w : world) :
  written (is_blurry image_path threshold verbose w) = written_files w
  /\ printed (is_blurry image_path threshold verbose w)
     = printed_lines w
       ++ match outcome (is_blurry image_path threshold verbose w) with
          | Return (flag, v) =>
              if verbose
              then [((if flag then "L'image est floue. Variance Laplacienne: "
                      else "L'image est nette. Variance Laplacienne: ")
                     ++ float_2f v)%string]
              else []
          | Raise _ => []
          end.
Proof.
  unfold written, printed, outcome, is_blurry, laplacian_variance, bind, ret, raise,
    print.
  destruct (imread image_path) as [img|]; simpl.
  - destruct (flt (Laplacian_var img) threshold), verbose; simpl;
      rewrite ?app_nil_r; auto.
  - rewrite app_nil_r. auto.
Qed.

(** X13. The script runs the analysis with the five extensions, the
    threshold 100.0, sorting and export. When the analysis ends on an
    error the script ends on it: the exported reports stay and no
    prompt is printed. When the analysis ends normally the prompt of
    [input] is printed last; the script then ends normally if a line
    waits on standard input, and on [EOFError] if standard input is at
    its end. *)
Theorem X13_main_prompts_after_a_normal_run (fs : option node) (dir_path : string) :
  written (main fs dir_path empty_world)
  = written (analyze_images_blurriness fs dir_path default_file_types
               (float_of_Z 100) true true empty_world)
  /\ outcome (main fs dir_path empty_world)
     = match outcome (analyze_images_blurriness fs dir_path default_file_types
                        (float_of_Z 100) true true empty_world) with
       | Raise e => Raise e
       | Return _ => match input_line with
                     | Some _ => Return tt
                     | None => Raise EOFError
                     end
       end
  /\ printed (main fs dir_path empty_world)
     = map (fun file => ("Data successfully exported to " ++ fst file)%string)
           (written (main fs dir_path empty_world))
       ++ match outcome (analyze_images_blurriness fs dir_path default_file_types
                           (float_of_Z 100) true true empty_world) with
          | Return _ => ["Appuyez sur Entrée pour fermer..."%string]
          | Raise _ => []
          end.
Proof.
  unfold main, input, bind, outcome, written, printed, analyze_images_blurriness.
  change (float_of_Z 100) with default_threshold.
  change [".jpg"; ".jpeg"; ".png"; ".tiff"; ".NEF"]%string with default_file_types.
  rewrite !for_each_eq. cbn [fst snd written_files printed_lines empty_world app].
  destruct (walk_outcome default_file_types true (os_walk dir_path fs)) as [[]|e];
    cbn [fst snd print written_files printed_lines];
    [destruct input_line|]; cbn [fst snd ret raise written_files printed_lines];
    rewrite ?app_nil_r; repeat split.
Qed.

End ListingAndReports.

(** ** More on the worker pool *)

Module PoolMoreFacts.
Import Pool PoolMore.

Lemma running_submit (d d' : nat) (img : string) (ts : list task) :
  running d (ts ++ [{| t_dir := d'; t_img := img; t_status := Queued |}])
  = running d ts.
Proof.
  unfold running. rewrite filter_app, length_app. simpl.
  rewrite andb_false_r. simpl. lia.
Qed.

Lemma running_split (d : nat) (ts1 ts2 : list task) (t : task) :
  running d (ts1 ++ t :: ts2)
  = running d ts1 + (if (of_dir d t && is_running t)%bool then 1 else 0)
    + running d ts2.
Proof.
  unfold running. rewrite filter_app, length_app. simpl.
  destruct (of_dir d t && is_running t)%bool; simpl; lia.
Qed.

(** No executor runs more than [max_workers] calls. *)
Lemma bound_step (dirs : list (list string)) (fails hangs : string -> bool)
    (unwritable : nat -> bool) (export : bool) (s s' : state) :
  step dirs fails hangs unwritable export s s' ->
  (forall d, running d (tasks s) <= max_workers) ->
  forall d, running d (tasks s') <= max_workers.
Proof.
  intros Hstep.
  destruct Hstep as [d imgs ts rp Hd|d ts rp Hd|d img todo ts rp|d imgs ts rp Hd
                    |d img todo ts rp Hin Hf|d img todo ts rp Hin Hf|d ts rp
                    |d raised imgs ts rp Hdone Hd|d n ts rp Hopen|d n ts rp Hopen
                    |p ts1 t ts2 rp Hq Hrun|p ts1 t ts2 rp Hr Hret];
    simpl; intros Hb d0; try apply Hb.
  - rewrite running_submit. apply Hb.
  - specialize (Hb d0). rewrite running_split in Hb, Hrun. rewrite running_split.
    replace (of_dir d0 (set_status t Running)) with (of_dir d0 t) by reflexivity.
    replace (is_running (set_status t Running)) with true by reflexivity.
    replace (is_running t) with false in Hb, Hrun
      by (unfold is_running; rewrite Hq; reflexivity).
    rewrite andb_false_r in Hb, Hrun. rewrite andb_true_r.
    unfold max_workers in *. unfold of_dir.
    destruct (Nat.eqb_spec (t_dir t) d0) as [E|E]; [subst d0|]; lia.
  - specialize (Hb d0). rewrite running_split in Hb. rewrite running_split.
    replace (is_running (set_status t Done)) with false by reflexivity.
    rewrite andb_false_r. unfold max_workers in *.
    destruct (of_dir d0 t && is_running t)%bool; lia.
Qed.

Lemma reachable_bound (dirs : list (list string)) (fails hangs : string -> bool)
    (unwritable : nat -> bool) (export : bool) (s : state) :
  reachable dirs fails hangs unwritable export s ->
  forall d, running d (tasks s) <= max_workers.
Proof.
  induction 1 as [|s s' _ IH Hstep].
  - intros d. unfold running. simpl. lia.
  - eapply bound_step; eassumption.
Qed.

Lemma running_all_of_current (d : nat) (ts : list task) :
  (forall t, In t ts -> t_dir t <> d -> t_status t = Done) ->
  running_all ts = running d ts.
Proof.
  intros Ho. unfold running_all, running. f_equal.
  induction ts as [|t ts IH]; [reflexivity|].
  simpl. rewrite IH by (intros; apply Ho; simpl; auto).
  unfold of_dir. destruct (Nat.eqb_spec (t_dir t) d) as [E|E]; [reflexivity|].
  unfold is_running. rewrite (Ho t (or_introl eq_refl) E). reflexivity.
Qed.

Lemma running_all_done (ts : list task) :
  (forall t, In t ts -> t_status t = Done) -> running_all ts = 0.
Proof.
  intros Hall. unfold running_all.
  induction ts as [|t ts IH]; [reflexivity|].
  simpl. unfold is_running at 1. rewrite (Hall t (or_introl eq_refl)).
  apply IH. intros; apply Hall; simpl; auto.
Qed.

(** X15. At no moment of a run are more than 8 calls of [is_blurry]
    running, whatever the number of images and of directories, whether
    or not calls fail or hang and reports can be written. *)
Theorem X15_at_most_eight_calls_running (dirs : list (list string))
    (fails hangs : string -> bool) (unwritable : nat -> bool) (export_to_csv : bool)
    (s : state) :
  reachable dirs fails hangs unwritable export_to_csv s ->
  running_all (tasks s) <= 8.
Proof.
  intros Hreach.
  pose proof (reachable_bound _ _ _ _ _ _ Hreach) as Hb.
  pose proof (PoolFacts.reachable_inv _ _ _ _ _ _ Hreach) as Hinv.
  unfold inv in Hinv.
  destruct (at_pc s) as [d|d todo|d todo|d raised|d k|raised]; simpl in Hinv.
  - destruct Hinv as [Hall _]. rewrite running_all_done; [lia | exact Hall].
  - destruct Hinv as [Ho _]. rewrite (running_all_of_current d _ Ho). apply Hb.
  - destruct Hinv as [Ho _]. rewrite (running_all_of_current d _ Ho). apply Hb.
  - destruct Hinv as [Ho _]. rewrite (running_all_of_current d _ Ho). apply Hb.
  - destruct Hinv as [Hall _]. rewrite running_all_done; [lia | exact Hall].
  - rewrite running_all_done; [lia | exact Hinv].
Qed.


Lemma processed_reports (dirs : list (list string)) (fails : string -> bool)
    (unwritable : nat -> bool) (export : bool) (s s' : state) (d : nat) :
  reports s' = reports s ->
  processed dirs fails unwritable export s d ->
  processed dirs fails unwritable export s' d.
Proof. unfold processed. intros ->. auto. Qed.

Lemma inv_read_step (dirs : list (list string)) (fails hangs : string -> bool)
    (unwritable : nat -> bool) (export : bool) (s s' : state) :
  step dirs fails hangs unwritable export s s' -> inv dirs s ->
  inv_read dirs fails unwritable export s ->
  inv_read dirs fails unwritable export s'.
Proof.
  intros Hstep Hinv.
  destruct Hstep as [d imgs ts rp Hd|d ts rp Hd|d img todo ts rp|d imgs ts rp Hd
                    |d img todo ts rp Hin Hf|d img todo ts rp Hin Hf|d ts rp
                    |d raised imgs ts rp Hdone Hd|d n ts rp Hopen|d n ts rp Hopen
                    |p ts1 t ts2 rp Hq Hrun|p ts1 t ts2 rp Hr Hret];
    unfold inv_read; simpl; intros [Hpc [Hnd Hrep]];
    try (split; [|split; assumption]).
  - exact Hpc.
  - intros d' imgs Hlt Hd'. apply Hpc; [|exact Hd'].
    apply nth_error_None in Hd. lia.
  - exact Hpc.
  - split; [exact Hpc|]. exists []. split; [exact Hd|]. intros ? [].
  - destruct Hpc as [Hp [read [Hr Hg]]]. split; [exact Hp|].
    exists (read ++ [img]). rewrite <- app_assoc. split; [exact Hr|].
    intros i Hi. apply in_app_iff in Hi. destruct Hi as [Hi|[<-|[]]]; auto.
  - destruct Hpc as [Hp [read [Hr Hg]]]. split; [exact Hp|].
    exists (read ++ img :: todo), img. split; [exact Hr|].
    split; [apply in_app_iff; simpl; auto | exact Hf].
  - destruct Hpc as [Hp [read [Hr Hg]]]. split; [exact Hp|].
    exists read. rewrite app_nil_r in Hr. auto.
  - destruct raised; simpl.
    + destruct Hpc as [Hp Hf]. exists d. split; [exact Hp | left; exact Hf].
    + destruct Hpc as [Hp [imgs' [Hi Hg]]]. split; [exact Hp|].
      exists imgs. rewrite Hd in Hi. injection Hi as <-. auto.
  - destruct Hpc as [Hp [imgs [Hi [Hg Hn]]]].
    unfold inv in Hinv. simpl in Hinv. destruct Hinv as [_ [_ [He _]]].
    assert (forall r, In r rp ->
              In r (if (export && negb (Nat.eqb n 0))%bool then rp ++ [d] else rp))
      as Hkeep.
    { intros r Hr. destruct (export && negb (Nat.eqb n 0))%bool; [|exact Hr].
      apply in_app_iff. auto. }
    split; [|split].
    + intros d' imgs' Hlt Hd'. simpl. destruct (Nat.eq_dec d' d) as [->|Hne].
      * rewrite Hi in Hd'. injection Hd' as <-. split; [exact Hg|].
        intros -> Hne. simpl in Hopen |- *.
        destruct (Nat.eqb_spec n 0) as [E|E].
        -- destruct imgs; [congruence | simpl in Hn; lia].
        -- simpl in Hopen |- *. split; [apply in_app_iff; simpl; auto | exact Hopen].
      * destruct (Hp d' imgs') as [Hg' Hr']; [lia | exact Hd'|].
        split; [exact Hg'|]. intros Hx Hy. destruct (Hr' Hx Hy) as [Hr1 Hr2].
        split; [apply Hkeep, Hr1 | exact Hr2].
    + destruct (export && negb (Nat.eqb n 0))%bool; [|exact Hnd].
      apply NoDup_app; [exact Hnd | repeat constructor; intros [] |].
      intros r Hr [E|[]]. subst r. specialize (He d Hr). lia.
    + intros r Hr.
      destruct (export && negb (Nat.eqb n 0))%bool eqn:Ec; [|apply Hrep, Hr].
      apply in_app_iff in Hr. destruct Hr as [Hr|[<-|[]]]; [apply Hrep, Hr|].
      simpl in Hopen. apply andb_true_iff in Ec. destruct Ec as [-> Ec].
      split; [reflexivity|]. split; [exact Hopen|].
      exists imgs. split; [exact Hi|]. split; [|exact Hg].
      intros ->. simpl in Hn. subst n. discriminate.
  - destruct Hpc as [Hp [imgs [Hi [Hg Hn]]]].
    apply andb_true_iff in Hopen. destruct Hopen as [Hopen Hu].
    apply andb_true_iff in Hopen. destruct Hopen as [He Hne].
    exists d. split; [exact Hp|]. right. exists imgs.
    split; [exact Hi|]. split; [exact Hg|]. split; [|auto].
    intros ->. simpl in Hn. subst n. discriminate.
  - exact Hpc.
  - exact Hpc.
Qed.

Lemma reachable_inv_read (dirs : list (list string)) (fails hangs : string -> bool)
    (unwritable : nat -> bool) (export : bool) (s : state) :
  reachable dirs fails hangs unwritable export s ->
  inv_read dirs fails unwritable export s.
Proof.
  induction 1 as [|s s' Hreach IH Hstep].
  - unfold inv_read, initial. simpl. split; [intros ? ? Hlt; lia|].
    split; [constructor | intros ? []].
  - eapply inv_read_step; [exact Hstep | | exact IH].
    eapply PoolFacts.reachable_inv, Hreach.
Qed.



End PoolMoreFacts.


Section PoolAndRun.
Context `{Env}.
Import Pool PoolMore.

Lemma pool_dirs_nth (fs : option node) (dir_path : string) (file_types : list string)
    (d : nat) :
  nth_error (pool_dirs fs dir_path file_types) d
  = option_map (fun entry => let '(root, _, files) := entry in
                             images_of root files file_types)
               (nth_error (os_walk dir_path fs) d).
Proof. unfold pool_dirs. apply nth_error_map. Qed.

Lemma pool_unwritable_nth (fs : option node) (dir_path : string) (d : nat)
    (entry : string * list string * list string) :
  nth_error (os_walk dir_path fs) d = Some entry ->
  pool_unwritable fs dir_path d = negb (writable (report_path entry)).
Proof.
  intros E. unfold pool_unwritable. rewrite E.
  destruct entry as [[root dirs] files]. reflexivity.
Qed.

Lemma pool_fails_decodes (img : string) : pool_fails img = negb (decodes img).
Proof. unfold pool_fails, decodes. destruct (imread img); reflexivity. Qed.

Lemma entry_decodes_good (file_types : list string)
    (entry : string * list string * list string) :
  entry_decodes file_types entry = true
  <-> good pool_fails
        (let '(root, _, files) := entry in images_of root files file_types).
Proof.
  destruct entry as [[root dirs] files]. unfold entry_decodes, good.
  rewrite forallb_forall.
  split; intros Hd img Hin; specialize (Hd img Hin);
    rewrite pool_fails_decodes in *; destruct (decodes img); auto; discriminate.
Qed.

Lemma has_images_spec (file_types : list string)
    (entry : string * list string * list string) :
  has_images file_types entry = true
  <-> (let '(root, _, files) := entry in images_of root files file_types) <> [].
Proof.
  destruct entry as [[root dirs] files]. unfold has_images.
  destruct (images_of root files file_types); simpl; split; congruence.
Qed.

(** The directories the main thread of the pool went through are
    directories the loop of the script goes through. *)
Lemma processed_proceeds (fs : option node) (dir_path : string)
    (file_types : list string) (export : bool) (s : state) (d : nat) :
  processed (pool_dirs fs dir_path file_types) pool_fails
    (pool_unwritable fs dir_path) export s d ->
  forall d' entry, d' < d -> nth_error (os_walk dir_path fs) d' = Some entry ->
    proceeds file_types export entry.
Proof.
  intros Hp d' entry Hlt Hd.
  assert (nth_error (pool_dirs fs dir_path file_types) d'
          = Some (let '(root, _, files) := entry in
                  images_of root files file_types)) as Hi
    by (rewrite pool_dirs_nth, Hd; reflexivity).
  destruct (Hp d' _ Hlt Hi) as [Hg Hr]. split.
  - apply entry_decodes_spec, entry_decodes_good, Hg.
  - intros He Hhas. apply has_images_spec in Hhas.
    destruct (Hr He Hhas) as [_ Hu].
    rewrite (pool_unwritable_nth _ _ _ _ Hd) in Hu.
    destruct (writable (report_path entry)); [reflexivity | discriminate].
Qed.

Lemma nth_error_before {A} (before after : list A) (x : A) (d : nat) (P : A -> Prop) :
  List.length before = d ->
  (forall d' y, d' < d -> nth_error (before ++ x :: after) d' = Some y -> P y) ->
  forall y, In y before -> P y.
Proof.
  intros Hlen Hp y Hin. destruct (In_nth_error _ _ Hin) as [d' Hd'].
  assert (d' < List.length before) as Hlt
    by (apply nth_error_Some; congruence).
  apply (Hp d' y); [lia|]. rewrite nth_error_app1 by exact Hlt. exact Hd'.
Qed.

(** X18. The threads and the sequential reading of the script agree on
    how a run ends. When the main thread of the pool has stopped
    without an error, [analyze_images_blurriness] ends normally; when
    it has stopped on an error, [analyze_images_blurriness] ends on
    cv2's error or on [OSError]. After a normal end with
    [export_to_csv], the directories whose report the pool wrote are
    those of the walk that have a selected image, the ones whose report
    the sequential run writes. *)
Theorem X18_pool_and_sequential_run_agree (fs : option node) (dir_path : string)
    (file_types : list string) (threshold : float) (sort export_to_csv : bool)
    (hangs : string -> bool) (s : state) (raised : bool) :
  reachable (pool_dirs fs dir_path file_types) pool_fails hangs
    (pool_unwritable fs dir_path) export_to_csv s ->
  at_pc s = Stopped raised ->
  (raised = false ->
   outcome (analyze_images_blurriness fs dir_path file_types threshold sort
              export_to_csv empty_world) = Return tt)
  /\ (raised = true ->
      outcome (analyze_images_blurriness fs dir_path file_types threshold sort
                 export_to_csv empty_world) = Raise cv2_error
      \/ outcome (analyze_images_blurriness fs dir_path file_types threshold sort
                    export_to_csv empty_world) = Raise OSError)
  /\ (raised = false -> export_to_csv = true ->
      (forall d entry, nth_error (os_walk dir_path fs) d = Some entry ->
         (In d (reports s) <-> has_images file_types entry = true))
      /\ map fst (written (analyze_images_blurriness fs dir_path file_types threshold
                             sort export_to_csv empty_world))
         = map report_path (filter (has_images file_types) (os_walk dir_path fs))).
Proof.
  intros Hreach Hpc.
  destruct (PoolMoreFacts.reachable_inv_read _ _ _ _ _ _ Hreach) as [Hat [_ Hrep]].
  rewrite Hpc in Hat. rewrite run_outcome.
  assert (raised = false ->
          forall entry, In entry (os_walk dir_path fs) ->
            proceeds file_types export_to_csv entry) as Hall.
  { intros -> entry Hin. destruct (In_nth_error _ _ Hin) as [d Hd].
    apply (processed_proceeds _ _ _ _ _ _ Hat d entry); [|exact Hd].
    unfold pool_dirs. rewrite length_map. apply nth_error_Some. congruence. }
  split; [|split].
  - intros Hr. apply walk_outcome_Return, Hall, Hr.
  - intros ->. destruct Hat as [d [Hp Hfail]].
    assert (exists entry, nth_error (os_walk dir_path fs) d = Some entry
                          /\ nth_error (pool_dirs fs dir_path file_types) d
                             = Some (let '(root, _, files) := entry in
                                     images_of root files file_types))
      as [entry [Hd Hi]].
    { assert (nth_error (pool_dirs fs dir_path file_types) d <> None) as Hsome
        by (destruct Hfail as [[imgs [? [E _]]]|[imgs [E _]]]; congruence).
      rewrite pool_dirs_nth in Hsome |- *.
      destruct (nth_error (os_walk dir_path fs) d) as [entry|];
        [|simpl in Hsome; congruence].
      exists entry. auto. }
    destruct (nth_error_split _ _ Hd) as [before [after [Hw Hlen]]].
    assert (forall entry', In entry' before ->
              proceeds file_types export_to_csv entry') as Hb.
    { apply (nth_error_before before after entry d); [exact Hlen|].
      intros d' y Hlt Hy. rewrite <- Hw in Hy.
      exact (processed_proceeds _ _ _ _ _ _ Hp d' y Hlt Hy). }
    rewrite Hw.
    destruct Hfail as [[imgs [img [Hi' [Hin Hf]]]]|[imgs [Hi' [Hg [Hne [He Hu]]]]]];
      rewrite Hi in Hi'; injection Hi' as <-.
    + left. apply walk_outcome_split; [exact Hb|]. apply entry_outcome_cv2.
      destruct (entry_decodes file_types entry) eqn:Ed; [|reflexivity].
      rewrite entry_decodes_good in Ed. rewrite (Ed img Hin) in Hf. discriminate.
    + right. apply walk_outcome_split; [exact Hb|]. apply entry_outcome_OSError.
      split; [apply entry_decodes_good, Hg|]. split; [exact He|].
      split; [apply has_images_spec, Hne|].
      rewrite (pool_unwritable_nth _ _ _ _ Hd) in Hu.
      destruct (writable (report_path entry)); [discriminate | reflexivity].
  - intros -> ->. specialize (Hall eq_refl). split.
    + intros d entry Hd.
      assert (nth_error (pool_dirs fs dir_path file_types) d
              = Some (let '(root, _, files) := entry in
                      images_of root files file_types)) as Hp
        by (rewrite pool_dirs_nth, Hd; reflexivity).
      rewrite has_images_spec. split.
      * intros Hin. destruct (Hrep d Hin) as [_ [_ [imgs [Hi [Hne _]]]]]. congruence.
      * intros Hne. refine (proj1 (proj2 (Hat d _ _ Hp) eq_refl Hne)).
        apply nth_error_Some. congruence.
    + unfold analyze_images_blurriness, written. rewrite for_each_eq.
      cbn [snd written_files empty_world app].
      rewrite (before_failure_all _ _ _ Hall).
      apply report_for_paths. intros entry Hin.
      apply entry_decodes_spec. apply (Hall entry Hin).
Qed.

End PoolAndRun.


(** ** The extension of a full path *)

Section Extensions.
Import PyStr Path.
Local Open Scope string_scope.

Lemma rfind_lt_length (c : ascii) (s : string) :
  (rfind c s < Z.of_nat (String.length s))%Z.
Proof.
  induction s as [|a s IH]; simpl String.length; simpl rfind; [lia|].
  destruct (0 <=? rfind c s)%Z; [lia|]. destruct (Ascii.eqb a c); lia.
Qed.

Lemma rfind_app_present (c : ascii) (a b : string) :
  (0 <= rfind c b)%Z ->
  rfind c (a ++ b) = (Z.of_nat (String.length a) + rfind c b)%Z.
Proof.
  intros Hb. induction a as [|x a IH]; [simpl; lia|].
  simpl append. simpl rfind. rewrite IH.
  destruct (0 <=? Z.of_nat (String.length a) + rfind c b)%Z eqn:E;
    [|apply Z.leb_gt in E; lia].
  simpl String.length. lia.
Qed.

Lemma rfind_app_absent (c : ascii) (a b : string) :
  rfind c b = (-1)%Z -> rfind c (a ++ b) = rfind c a.
Proof.
  intros Hb. induction a as [|x a IH]; [exact Hb|].
  simpl. rewrite IH. reflexivity.
Qed.

Lemma get_app (a b : string) (i : nat) :
  String.get (String.length a + i) (a ++ b) = String.get i b.
Proof. induction a as [|x a IH]; [reflexivity | exact IH]. Qed.

Lemma has_non_dot_app (a b : string) (i k : nat) :
  has_non_dot (a ++ b) (String.length a + i) k = has_non_dot b i k.
Proof.
  revert i. induction k as [|k IH]; intros i; [reflexivity|].
  simpl. rewrite get_app. destruct (String.get i b) as [x|]; [|reflexivity].
  destruct (negb (Ascii.eqb x extsep)); [reflexivity|].
  rewrite <- IH. f_equal. lia.
Qed.

Lemma drop_app_plus (a b : string) (k : nat) :
  drop (String.length a + k) (a ++ b) = drop k b.
Proof. induction a as [|x a IH]; [reflexivity | exact IH]. Qed.

(** What [join] puts before a name is empty or ends with the separator. *)
Lemma join_prefix_shape (root : string) :
  join root "" = "" \/ exists p, join root "" = p ++ String sep "".
Proof.
  unfold join. simpl startswith.
  destruct (String.eqb root "") eqn:Er.
  - apply String.eqb_eq in Er. subst. left. reflexivity.
  - simpl orb. right. destruct (endswith root sep) eqn:Ee.
    + destruct (endswith_split _ _ Ee) as [p ->]. exists p.
      apply append_nil_r.
    + exists root. reflexivity.
Qed.

(** The extension of a file joined to a directory is the extension of
    the file. *)
Lemma splitext_join (root name : string) :
  contains sep name = false ->
  snd (splitext (join root name)) = snd (splitext name).
Proof.
  intros Hn. rewrite (join_prefix root name (startswith_absent _ _ Hn)).
  set (pre := join root "").
  assert (rfind sep (pre ++ name) + 1 = Z.of_nat (String.length pre))%Z as Hsep.
  { rewrite (rfind_app_absent _ _ _ (rfind_absent _ _ Hn)).
    destruct (join_prefix_shape root) as [E|[p E]]; fold pre in E; rewrite E.
    - reflexivity.
    - rewrite (rfind_last sep p "" eq_refl), append_length. simpl. lia. }
  unfold splitext. rewrite (rfind_absent _ _ Hn).
  destruct (0 <=? rfind extsep name)%Z eqn:Ek.
  - apply Z.leb_le in Ek. rewrite (rfind_app_present _ pre _ Ek).
    destruct (rfind sep (pre ++ name) <? Z.of_nat (String.length pre)
                                         + rfind extsep name)%Z eqn:E1;
      [|apply Z.ltb_ge in E1; lia].
    destruct (-1 <? rfind extsep name)%Z eqn:E2; [|apply Z.ltb_ge in E2; lia].
    rewrite Hsep, Nat2Z.id.
    replace (Z.to_nat (Z.of_nat (String.length pre) + rfind extsep name))
      with (String.length pre + Z.to_nat (rfind extsep name)) by lia.
    replace (String.length pre + Z.to_nat (rfind extsep name) - String.length pre)
      with (Z.to_nat (rfind extsep name)) by lia.
    change (Z.to_nat (-1 + 1)) with 0.
    rewrite Nat.sub_0_r.
    rewrite <- (Nat.add_0_r (String.length pre)) at 1.
    rewrite has_non_dot_app.
    destruct (has_non_dot name 0 (Z.to_nat (rfind extsep name))); [|reflexivity].
    simpl snd. apply drop_app_plus.
  - apply Z.leb_gt in Ek. pose proof (rfind_ge extsep name).
    assert (rfind extsep name = (-1)%Z) as Ed by lia.
    rewrite (rfind_app_absent _ pre _ Ed), Ed.
    replace (rfind sep (pre ++ name) <? rfind extsep pre)%Z with false; [reflexivity|].
    symmetry. apply Z.ltb_ge.
    destruct (join_prefix_shape root) as [E|[p E]]; fold pre in E; rewrite E in *.
    + simpl in *. lia.
    + rewrite (rfind_app_absent extsep p (String sep "") eq_refl).
      pose proof (rfind_lt_length extsep p).
      rewrite append_length in Hsep. simpl in Hsep. lia.
Qed.

(** X14. On a well-formed tree, every path that
    [get_fullpath_images_from_directory] returns has, as
    [os.path.splitext] reads the full path, an extension among
    [file_types]; it is the join of a directory of the walk and of its
    own base name, which names a file of that directory. *)
Theorem X14_listed_paths_carry_a_selected_extension (n : node) (dir_path : string)
    (file_types : list string) (image_path : string) :
  tree_ok n = true ->
  In image_path (get_fullpath_images_from_directory (Some n) dir_path file_types) ->
  In (snd (splitext image_path)) file_types
  /\ exists root entries,
       dir_at dir_path n root entries
       /\ In (basename image_path, File) entries
       /\ image_path = join root (basename image_path).
Proof.
  intros Hok Hin.
  unfold get_fullpath_images_from_directory in Hin. rewrite list_walk_loop in Hin.
  simpl in Hin. apply in_flat_map in Hin.
  destruct Hin as [[[root dirs] files] [Hw Hin]].
  destruct (walk_dir_at _ _ _ _ _ Hw) as [es [Hd [-> ->]]].
  apply in_images_of in Hin. destruct Hin as [name [Hn [-> Hext]]].
  apply in_filenames in Hn.
  pose proof (dir_at_tree_ok _ _ _ _ Hd Hok) as Hes.
  destruct (tree_ok_entries _ _ Hes _ _ Hn) as [Hnok _].
  destruct (name_ok_spec _ Hnok) as [_ Hsep].
  rewrite (splitext_join root name Hsep), (basename_join root name Hsep).
  split; [exact Hext|]. exists root, es. auto.
Qed.

End Extensions.

Section HeaderOnly.
Context `{Env}.


End HeaderOnly.

Section HeaderOnlySample.
Import Sample.


(** [to_csv] in the directory of the sample that refuses to be written. *)
Example to_csv_refused :
  @to_csv env [] "d/frozen" default_filename empty_world = (Raise OSError, empty_world).
Proof. reflexivity. Qed.

(** The script over the sample when standard input is closed: the report
    is written, the prompt printed, and [input] raises. *)
Example main_without_stdin :
  @main env_no_stdin (Some two_images) "d" empty_world
  = (Raise EOFError,
     {| written_files := [report_d];
        printed_lines :=
          ["Data successfully exported to d/image_analysis_results.csv"%string;
           "Appuyez sur Entrée pour fermer..."%string] |}).
Proof. reflexivity. Qed.

End HeaderOnlySample.

(** * The further properties on the sample *)

Section MoreSampleRuns.
Import Sample MoreSample.


(** X8 on a.jpg, of variance 40.0, under the thresholds 100.0 and 250.0. *)
Lemma X8_witness :
  outcome (@is_blurry env "d/a.jpg" f100 false empty_world) = Return (true, f40)
  /\ fle f100 f250 = true
  /\ outcome (@is_blurry env "d/a.jpg" f250 true empty_world) = Return (true, f40).
Proof.
  assert (outcome (@is_blurry env "d/a.jpg" f100 false empty_world)
          = Return (true, f40)) as H1 by reflexivity.
  assert (fle f100 f250 = true) as H2 by reflexivity.
  split; [exact H1|]. split; [exact H2|].
  exact (@X8_blurry_is_monotone_in_threshold env "d/a.jpg" f100 f250 false true
           empty_world empty_world f40 H1 H2).
Defined.

(** X9 on the report of [d] in the nested sample. *)
Lemma X9_witness :
  (forall img : @image env, is_nan (@Laplacian_var env img) = false)
  /\ In report_d (written (run (Some nested)))
  /\ exists rows,
       snd report_d = headers :: map row_of_record rows
       /\ forall i j ri rj,
            i < j -> nth_error rows i = Some ri -> nth_error rows j = Some rj ->
            fle (variance ri) (variance rj) = true
            /\ (blurry rj = true -> blurry ri = true).
Proof.
  assert (forall img : @image env, is_nan (@Laplacian_var env img) = false) as H1
    by (intros []; reflexivity).
  assert (In report_d (written (run (Some nested)))) as H2 by (vm_compute; auto).
  split; [exact H1|]. split; [exact H2|].
  exact (@X9_sorted_report_blurry_rows_first env (Some nested) "d" default_file_types
           default_threshold true report_d H1 H2).
Defined.

(** X10 on the nested sample, which gets three reports. *)
Lemma X10_witness :
  tree_ok nested = true
  /\ NoDup (map fst (written (@analyze_images_blurriness env (Some nested) "d"
                                default_file_types default_threshold true true
                                empty_world))).
Proof.
  assert (tree_ok nested = true) as H1 by reflexivity.
  split; [exact H1|].
  exact (@X10_report_paths_distinct env nested "d" default_file_types
           default_threshold true true H1).
Defined.

(** X11 on the nested sample: four images, in three reports. *)
Lemma X11_witness :
  outcome (@analyze_images_blurriness env (Some nested) "d" default_file_types
             default_threshold true true empty_world) = Return tt
  /\ Permutation
       (flat_map path_column
          (written (@analyze_images_blurriness env (Some nested) "d"
                      default_file_types default_threshold true true empty_world)))
       (get_fullpath_images_from_directory (Some nested) "d" default_file_types)
  /\ (true = false ->
      flat_map path_column
        (written (@analyze_images_blurriness env (Some nested) "d"
                    default_file_types default_threshold true true empty_world))
      = get_fullpath_images_from_directory (Some nested) "d" default_file_types).
Proof.
  assert (outcome (@analyze_images_blurriness env (Some nested) "d" default_file_types
                     default_threshold true true empty_world) = Return tt) as H1
    by reflexivity.
  split; [exact H1|].
  exact (@X11_reports_cover_the_listing env (Some nested) "d" default_file_types
           default_threshold true H1).
Defined.

(** X14 on the copy found in [d/sub]. *)
Lemma X14_witness :
  tree_ok nested = true
  /\ In "d/sub/copy.jpg"%string
        (get_fullpath_images_from_directory (Some nested) "d" default_file_types)
  /\ In (snd (Path.splitext "d/sub/copy.jpg")) default_file_types
  /\ exists root entries,
       dir_at "d" nested root entries
       /\ In (Path.basename "d/sub/copy.jpg", File) entries
       /\ "d/sub/copy.jpg"%string = Path.join root (Path.basename "d/sub/copy.jpg").
Proof.
  assert (tree_ok nested = true) as H1 by reflexivity.
  assert (In "d/sub/copy.jpg"%string
             (get_fullpath_images_from_directory (Some nested) "d" default_file_types))
    as H2 by (vm_compute; auto 6).
  split; [exact H1|]. split; [exact H2|].
  exact (X14_listed_paths_carry_a_selected_extension nested "d" default_file_types
           "d/sub/copy.jpg" H1 H2).
Defined.

End MoreSampleRuns.

Section MoreSamplePool.
Import Sample MoreSample Pool PoolMore.

(** The pool over the two images, when both calls are running, whether
    or not the calls return. *)
Lemma sample_both_running_reachable (hangs : string -> bool) :
  reachable (pool_dirs (Some two_images) "d" default_file_types)
    (@pool_fails env) hangs (@pool_unwritable env (Some two_images) "d") true
    both_running.
Proof.
  set (dirs := pool_dirs (Some two_images) "d" default_file_types).
  set (a := fun st => {| t_dir := 0; t_img := "d/a.jpg"; t_status := st |}).
  set (b := fun st => {| t_dir := 0; t_img := "d/b.png"; t_status := st |}).
  pose proof (reach_initial dirs (@pool_fails env) hangs
                (@pool_unwritable env (Some two_images) "d") true) as R.
  apply (fun R => reach_step _ _ _ _ _ _ _ R
           (step_enter dirs _ _ _ _ 0 ["d/a.jpg"; "d/b.png"]%string [] [] eq_refl))
    in R.
  apply (fun R => reach_step _ _ _ _ _ _ _ R (step_submit dirs _ _ _ _ 0 _ _ _ _)) in R.
  apply (fun R => reach_step _ _ _ _ _ _ _ R (step_submit dirs _ _ _ _ 0 _ _ _ _)) in R.
  apply (fun R => reach_step _ _ _ _ _ _ _ R
           (step_submitted dirs _ _ _ _ 0 ["d/a.jpg"; "d/b.png"]%string _ _ eq_refl))
    in R.
  apply (fun R => reach_step _ _ _ _ _ _ _ R
           (step_start dirs _ _ _ _ _ [] (a Queued) [b Queued] [] eq_refl
              ltac:(cbv; lia))) in R.
  apply (fun R => reach_step _ _ _ _ _ _ _ R
           (step_start dirs _ _ _ _ _ [a Running] (b Queued) [] [] eq_refl
              ltac:(cbv; lia))) in R.
  exact R.
Defined.


(** The pool over [frozen_below]: the report of [d] is written, the one
    of [d/frozen] is refused and the main thread stops on the error. *)
Lemma sample_refused_reachable :
  reachable (pool_dirs (Some frozen_below) "d" default_file_types)
    (@pool_fails env) returns (@pool_unwritable env (Some frozen_below) "d") true
    refused_state.
Proof.
  set (dirs := pool_dirs (Some frozen_below) "d" default_file_types).
  set (a := fun st => {| t_dir := 0; t_img := "d/a.jpg"; t_status := st |}).
  set (f := fun st => {| t_dir := 1; t_img := "d/frozen/f.jpg"; t_status := st |}).
  pose proof (reach_initial dirs (@pool_fails env) returns
                (@pool_unwritable env (Some frozen_below) "d") true) as R.
  apply (fun R => reach_step _ _ _ _ _ _ _ R
           (step_enter dirs _ _ _ _ 0 ["d/a.jpg"]%string [] [] eq_refl)) in R.
  apply (fun R => reach_step _ _ _ _ _ _ _ R (step_submit dirs _ _ _ _ 0 _ _ _ _)) in R.
  apply (fun R => reach_step _ _ _ _ _ _ _ R
           (step_submitted dirs _ _ _ _ 0 ["d/a.jpg"]%string _ _ eq_refl)) in R.
  apply (fun R => reach_step _ _ _ _ _ _ _ R
           (step_start dirs _ _ _ _ _ [] (a Queued) [] [] eq_refl
              ltac:(cbv; lia))) in R.
  apply (fun R => reach_step _ _ _ _ _ _ _ R
           (step_finish dirs _ _ _ _ _ [] (a Running) [] [] eq_refl eq_refl)) in R.
  apply (fun R => reach_step _ _ _ _ _ _ _ R
           (step_result dirs _ _ _ _ 0 "d/a.jpg" [] [a Done] []
              (or_introl eq_refl : In (a Done) [a Done]) eq_refl)) in R.
  apply (fun R => reach_step _ _ _ _ _ _ _ R (step_read dirs _ _ _ _ 0 _ _)) in R.
  apply (fun R => reach_step _ _ _ _ _ _ _ R
           (step_leave dirs _ _ _ _ 0 false ["d/a.jpg"]%string [a Done] []
              eq_refl eq_refl)) in R.
  apply (fun R => reach_step _ _ _ _ _ _ _ R
           (step_report dirs _ _ _ true 0 1 _ [] eq_refl)) in R.
  apply (fun R => reach_step _ _ _ _ _ _ _ R
           (step_enter dirs _ _ _ _ 1 ["d/frozen/f.jpg"]%string [a Done] [0] eq_refl))
    in R.
  apply (fun R => reach_step _ _ _ _ _ _ _ R (step_submit dirs _ _ _ _ 1 _ _ _ _)) in R.
  apply (fun R => reach_step _ _ _ _ _ _ _ R
           (step_submitted dirs _ _ _ _ 1 ["d/frozen/f.jpg"]%string _ _ eq_refl))
    in R.
  apply (fun R => reach_step _ _ _ _ _ _ _ R
           (step_start dirs _ _ _ _ _ [a Done] (f Queued) [] [0] eq_refl
              ltac:(cbv; lia))) in R.
  apply (fun R => reach_step _ _ _ _ _ _ _ R
           (step_finish dirs _ _ _ _ _ [a Done] (f Running) [] [0] eq_refl eq_refl))
    in R.
  apply (fun R => reach_step _ _ _ _ _ _ _ R
           (step_result dirs _ _ _ _ 1 "d/frozen/f.jpg" [] [a Done; f Done] [0]
              (or_intror (or_introl eq_refl) : In (f Done) [a Done; f Done])
              eq_refl)) in R.
  apply (fun R => reach_step _ _ _ _ _ _ _ R (step_read dirs _ _ _ _ 1 _ _)) in R.
  apply (fun R => reach_step _ _ _ _ _ _ _ R
           (step_leave dirs _ _ _ _ 1 false ["d/frozen/f.jpg"]%string
              [a Done; f Done] [0] eq_refl eq_refl)) in R.
  apply (fun R => reach_step _ _ _ _ _ _ _ R
           (step_report_raises dirs _ _ _ true 1 1 _ [0] eq_refl)) in R.
  exact R.
Defined.

(** X15 when both calls are running. *)
Lemma X15_witness :
  reachable (pool_dirs (Some two_images) "d" default_file_types)
    (@pool_fails env) returns (@pool_unwritable env (Some two_images) "d") true
    both_running
  /\ running_all (tasks both_running) <= 8.
Proof.
  split; [exact (sample_both_running_reachable returns)|].
  exact (PoolMoreFacts.X15_at_most_eight_calls_running _ _ _ _ _ _
           (sample_both_running_reachable returns)).
Defined.


(** With calls that never return, the pool over the two images is stuck
    once both calls run: no thread can take a step. *)
Example sample_stuck :
  ~ exists s', step (pool_dirs (Some two_images) "d" default_file_types)
                 (@pool_fails env) stalls
                 (@pool_unwritable env (Some two_images) "d") true
                 both_running s'.
Proof.
  intros [s' Hstep]. unfold both_running in Hstep.
  inversion Hstep; subst;
    try match goal with
        | Hin : In _ [_; _] |- _ => destruct Hin as [E|[E|[]]]; discriminate
        | Hs : stalls _ = false |- _ => discriminate
        end.
  match goal with
  | E : ?ts1 ++ ?t :: ?ts2 = _, Hq : t_status ?t = Queued |- _ =>
      assert (In t (ts1 ++ t :: ts2)) as Hin by (apply in_app_iff; simpl; auto);
      rewrite E in Hin; destruct Hin as [<-|[<-|[]]]; discriminate
  end.
Qed.


(** X18 after the run over [frozen_below], stopped on the refused
    report: the sequential run ends on [OSError]. *)
Lemma X18_witness :
  reachable (pool_dirs (Some frozen_below) "d" default_file_types)
    (@pool_fails env) returns (@pool_unwritable env (Some frozen_below) "d") true
    refused_state
  /\ at_pc refused_state = Stopped true
  /\ (true = false ->
      outcome (@analyze_images_blurriness env (Some frozen_below) "d"
                 default_file_types default_threshold true true empty_world)
      = Return tt)
  /\ (true = true ->
      outcome (@analyze_images_blurriness env (Some frozen_below) "d"
                 default_file_types default_threshold true true empty_world)
      = Raise cv2_error
      \/ outcome (@analyze_images_blurriness env (Some frozen_below) "d"
                    default_file_types default_threshold true true empty_world)
         = Raise OSError)
  /\ (true = false -> true = true ->
      (forall d entry, nth_error (os_walk "d" (Some frozen_below)) d = Some entry ->
         (In d (reports refused_state) <-> has_images default_file_types entry = true))
      /\ map fst (written (@analyze_images_blurriness env (Some frozen_below) "d"
                             default_file_types default_threshold true true
                             empty_world))
         = map report_path (filter (has_images default_file_types)
                                   (os_walk "d" (Some frozen_below)))).
Proof.
  assert (at_pc refused_state = Stopped true) as H2 by reflexivity.
  split; [exact sample_refused_reachable|]. split; [exact H2|].
  exact (@X18_pool_and_sequential_run_agree env (Some frozen_below) "d"
           default_file_types default_threshold true true returns refused_state true
           sample_refused_reachable H2).
Defined.

(** The run of the script over [frozen_below]: the report of [d] is
    written, [open] refuses the one of [d/frozen] and [d/edge] is never
    reached. *)
Example run_refused :
  run (Some frozen_below)
  = (Raise OSError,
     {| written_files := [("d/image_analysis_results.csv"%string,
                           [headers; row_of_record record_a])];
        printed_lines :=
          ["Data successfully exported to d/image_analysis_results.csv"%string] |}).
Proof. reflexivity. Qed.

End MoreSamplePool.
